(** * UE-core: the validator registry and the in-memory round engine

    A shallow embedding of [core/types], [modules/validator] and
    [modules/consensus], and the properties of the registry (registration,
    rewards, slashing) and of the propose / pre-vote / pre-commit / finalize
    round engine.

    Conventions of the embedding.
    - [uint64] and [int] values are integers in [Z]; every arithmetic
      operation of the source that can leave the range is followed by its
      wrap-around ([wrap_u64], [wrap_int]).  Go's [/] and [%] on [int]
      truncate toward zero ([Z.quot], [Z.rem]).
    - Go strings are [string]; the string-typed enumerations
      ([ValidatorStatus], [SlashReason], [VoteType]) stay strings, as any
      string is a value of these types.
    - [time.Time] is an instant in [Z]; a call receives the readings of
      [time.Now()] it makes as a function [clk], the k-th reading being
      [clk k].
    - A Go [map] is a [gmap]; a slice is a [list]; a [*BlockData] is a
      location in a heap of blocks, and a location outside the heap stands
      for [nil].
    - An [error] result is [option error] ([None] is [nil]); each
      constructor of [error] stands for one [fmt.Errorf] of the source.
    - [fmt.Printf] output and the mutex, which every engine method takes on
      entry and releases on return, are not part of the embedding. *)

From Stdlib Require Import ZArith Lia Ascii.
From stdpp Require Import gmap strings list fin_maps pretty.

Local Open Scope string_scope.
Local Open Scope list_scope.
Local Open Scope Z_scope.

(** ** Machine integers *)

Module mach.

Definition wrap_u64 (z : Z) : Z := z mod 2 ^ 64.

Definition wrap_int (z : Z) : Z := (z + 2 ^ 63) mod 2 ^ 64 - 2 ^ 63.

Definition is_u64 (z : Z) : Prop := 0 <= z < 2 ^ 64.

Definition is_int (z : Z) : Prop := - 2 ^ 63 <= z < 2 ^ 63.

Definition max_int : Z := 2 ^ 63 - 1.

End mach.

(** ** Package [types] *)

Module types.

(** An instant, in nanoseconds since [time.Time{}] (1 January of year 1,
    00:00:00 UTC). *)
Definition Time := Z.

(** [time.Time{}], the zero instant. *)
Definition zeroTime : Time := 0.

(** [t.Unix()]: seconds since 1 January 1970 UTC. *)
Definition Unix (t : Time) : Z := t / 1000000000 - 62135596800.

Definition Address := list Byte.byte.

(** [[20]byte{}] *)
Definition zeroAddress : Address := replicate 20 Byte.x00.

Definition MinValidatorStake : Z := 28846.
Definition ConsensusThreshold : Z := 67.
Definition EpochDuration : Z := 100.

Record Context := {
  ctx_Height : Z;
  ctx_Timestamp : Time;
  ctx_ChainID : string
}.

Record CoinAmount := {
  Amount : Z;
  Denom : string
}.

Module Transaction.
Record t := {
  Hash : string;
  From : Address;
  To : Address;
  Amount : CoinAmount;
  Gas : Z;
  GasPrice : Z;
  Data : list Byte.byte;
  Nonce : Z;
  Signature : list Byte.byte;
  Timestamp : Z
}.
End Transaction.

Definition VoteTypePreVote : string := "pre_vote".
Definition VoteTypePreCommit : string := "pre_commit".

Module Vote.
Record t := {
  ValidatorID : string;
  BlockHash : string;
  Timestamp : Time;
  Type_ : string
}.
End Vote.

Module ConsensusData.
Record t := {
  PreVotes : list Vote.t;
  PreCommits : list Vote.t;
  Finalized : bool;
  FinalityTime : Time
}.

(** [types.ConsensusData{}] *)
Definition zero : t :=
  {| PreVotes := []; PreCommits := []; Finalized := false;
     FinalityTime := zeroTime |}.
End ConsensusData.

Module BlockData.
Record t := {
  Height : Z;
  Hash : string;
  Timestamp : Time;
  Proposer : string;
  Transactions : list Transaction.t;
  Consensus : ConsensusData.t
}.
End BlockData.

Definition IsValidatorEligible (stakeAmount : Z) : bool :=
  bool_decide (MinValidatorStake <= stakeAmount).

Definition CalculateValidatorReward (stakeAmount totalStake blockReward : Z) : Z :=
  if bool_decide (totalStake = 0) then 0
  else mach.wrap_u64 (stakeAmount * blockReward) / totalStake.

Definition IsConsensusReached (votes totalValidators : Z) : bool :=
  if bool_decide (totalValidators = 0) then false
  else bool_decide (ConsensusThreshold <= mach.wrap_u64 (votes * 100) / totalValidators).

(** *** Contexts and epochs *)

(** The embedded [context.Context] plays no part in what the package
    computes and is left out of [Context]. *)
Definition NewContext (height : Z) (timestamp : Time) (chainID : string)
    : Context :=
  {| ctx_Height := height; ctx_Timestamp := timestamp; ctx_ChainID := chainID |}.

Definition WithHeight (c : Context) (height : Z) : Context :=
  {| ctx_Height := height; ctx_Timestamp := ctx_Timestamp c;
     ctx_ChainID := ctx_ChainID c |}.

Definition WithTimestamp (c : Context) (timestamp : Time) : Context :=
  {| ctx_Height := ctx_Height c; ctx_Timestamp := timestamp;
     ctx_ChainID := ctx_ChainID c |}.

Definition CalculateEpochNumber (blockHeight : Z) : Z :=
  blockHeight / EpochDuration.

Definition IsEpochBoundary (blockHeight : Z) : bool :=
  bool_decide (blockHeight mod EpochDuration = 0).

Definition CalculateNextEpochHeight (currentHeight : Z) : Z :=
  let currentEpoch := CalculateEpochNumber currentHeight in
  mach.wrap_u64 (mach.wrap_u64 (currentEpoch + 1) * EpochDuration).

(** *** Errors of the package *)

(** The [fmt.Errorf] calls of the package, with the values they format
    (the error of the library call behind [ErrInvalidHex] and
    [ErrInvalidAmount] is not kept). *)
Inductive error :=
| ErrInvalidHex
| ErrInvalidAddressLength (expected got : Z)
| ErrAddDenoms (a b : string)
| ErrSubDenoms (a b : string)
| ErrInsufficientBalance (c other : string)
| ErrFromZero
| ErrToZero
| ErrAmountZero
| ErrGasZero
| ErrGasPriceZero
| ErrInvalidCoinFormat (s : string)
| ErrInvalidAmount.

(** *** The library functions the package calls *)

(** [encoding/hex]: the digit of a value below 16, in lower case. *)
Definition hexDigit (n : N) : ascii :=
  ascii_of_N (if (n <? 10)%N then 48 + n else 87 + n)%N.

(** [hex.EncodeToString]: two lower-case digits per byte, high nibble
    first. *)
Fixpoint EncodeToString (src : list Byte.byte) : string :=
  match src with
  | [] => ""
  | b :: src' =>
      String (hexDigit (Byte.to_N b / 16)%N)
        (String (hexDigit (Byte.to_N b mod 16)%N) (EncodeToString src'))
  end.

(** [encoding/hex]: the value of a hexadecimal digit, of either case. *)
Definition fromHexChar (c : ascii) : option N :=
  let n := N_of_ascii c in
  if ((48 <=? n) && (n <=? 57))%N then Some (n - 48)%N
  else if ((97 <=? n) && (n <=? 102))%N then Some (n - 87)%N
  else if ((65 <=? n) && (n <=? 70))%N then Some (n - 55)%N
  else None.

(** [hex.DecodeString]: [None] is its error (a character that is no
    hexadecimal digit, or an odd length). *)
Fixpoint DecodeString (s : string) : option (list Byte.byte) :=
  match s with
  | "" => Some []
  | String _ "" => None
  | String hi (String lo s') =>
      match fromHexChar hi, fromHexChar lo with
      | Some a, Some b =>
          match Byte.of_N (a * 16 + b), DecodeString s' with
          | Some x, Some rest => Some (x :: rest)
          | _, _ => None
          end
      | _, _ => None
      end
  end.

(** [strings.TrimPrefix(s, "0x")] *)
Definition TrimPrefix0x (s : string) : string :=
  match s with
  | String "0"%char (String "x"%char rest) => rest
  | _ => s
  end.

Definition isDigit (c : ascii) : bool :=
  ((48 <=? N_of_ascii c) && (N_of_ascii c <=? 57))%N.

(** The value of a string of decimal digits read after [acc]; [None] when
    some character is no digit. *)
Fixpoint parseDigits (acc : N) (s : string) : option N :=
  match s with
  | "" => Some acc
  | String c s' =>
      if isDigit c then parseDigits (acc * 10 + (N_of_ascii c - 48))%N s'
      else None
  end.

(** [strconv.ParseUint(s, 10, 64)]: [None] is its error (the empty string,
    a character that is no decimal digit, a value of [2^64] or more). *)
Definition ParseUint (s : string) : option Z :=
  match s with
  | "" => None
  | _ =>
      match parseDigits 0 s with
      | Some n => if (n <? 2 ^ 64)%N then Some (Z.of_N n) else None
      | None => None
      end
  end.

(** *** Addresses *)

Definition NewAddress (hexStr : string) : Address * option error :=
  let hexStr := TrimPrefix0x hexStr in
  match DecodeString hexStr with
  | None => (zeroAddress, Some ErrInvalidHex)
  | Some bytes =>
      if bool_decide (length bytes <> 20%nat) then
        (zeroAddress,
         Some (ErrInvalidAddressLength 20 (Z.of_nat (length bytes))))
      else (bytes, None)
  end.

Definition Address_String (a : Address) : string :=
  "0x" +:+ EncodeToString a.

Definition Address_Bytes (b : Address) : list Byte.byte := b.

Definition Address_IsZero (a : Address) : bool :=
  forallb (fun b => Byte.eqb b Byte.x00) a.

(** *** Coin amounts *)

Definition NewCoinAmount (amount : Z) (denom : string) : CoinAmount :=
  {| Amount := amount; Denom := denom |}.

Definition NewUECoins (amount : Z) : CoinAmount := NewCoinAmount amount "ue".

(** [fmt.Sprintf("%d%s", c.Amount, c.Denom)] *)
Definition CoinAmount_String (c : CoinAmount) : string :=
  pretty (Amount c) +:+ Denom c.

(** [CoinAmount{}] *)
Definition zeroCoin : CoinAmount := {| Amount := 0; Denom := "" |}.

Definition CoinAmount_Add (c other : CoinAmount) : CoinAmount * option error :=
  if bool_decide (Denom c <> Denom other) then
    (zeroCoin, Some (ErrAddDenoms (Denom c) (Denom other)))
  else
    ({| Amount := mach.wrap_u64 (Amount c + Amount other); Denom := Denom c |},
     None).

Definition CoinAmount_Sub (c other : CoinAmount) : CoinAmount * option error :=
  if bool_decide (Denom c <> Denom other) then
    (zeroCoin, Some (ErrSubDenoms (Denom c) (Denom other)))
  else if bool_decide (Amount c < Amount other) then
    (zeroCoin,
     Some (ErrInsufficientBalance (CoinAmount_String c) (CoinAmount_String other)))
  else
    ({| Amount := mach.wrap_u64 (Amount c - Amount other); Denom := Denom c |},
     None).

Definition CoinAmount_Mul (c : CoinAmount) (factor : Z) : CoinAmount :=
  {| Amount := mach.wrap_u64 (Amount c * factor); Denom := Denom c |}.

Definition CoinAmount_Div (c : CoinAmount) (factor : Z) : CoinAmount :=
  if bool_decide (factor = 0) then {| Amount := 0; Denom := Denom c |}
  else {| Amount := Amount c / factor; Denom := Denom c |}.

Definition CoinAmount_IsZero (c : CoinAmount) : bool :=
  bool_decide (Amount c = 0).

Definition CoinAmount_IsPositive (c : CoinAmount) : bool :=
  bool_decide (0 < Amount c).

(** The loop [for i := len(s) - 1; i >= 0; i--] of [ParseCoinAmount], with
    [k] indices still to visit ([i = k - 1]): at the last decimal digit it
    cuts the bytes [s] into [s[:i+1]] and [s[i+1:]]; without one both stay
    empty. *)
Fixpoint cutAtLastDigit (s : list ascii) (k : nat) : list ascii * list ascii :=
  match k with
  | O => ([], [])
  | S i =>
      match s !! i with
      | Some c =>
          if isDigit c then (take (S i) s, drop (S i) s)
          else cutAtLastDigit s i
      | None => cutAtLastDigit s i
      end
  end.

Definition ParseCoinAmount (s : string) : CoinAmount * option error :=
  let bytes := String.list_ascii_of_string s in
  let '(amountStr, denom) := cutAtLastDigit bytes (length bytes) in
  if bool_decide (amountStr = []) then
    (zeroCoin, Some (ErrInvalidCoinFormat s))
  else
    match ParseUint (String.string_of_list_ascii amountStr) with
    | None => (zeroCoin, Some ErrInvalidAmount)
    | Some amount =>
        ({| Amount := amount; Denom := String.string_of_list_ascii denom |}, None)
    end.

(** *** Transactions *)

Definition NewTransaction (from to : Address) (amount : CoinAmount)
    (gas gasPrice : Z) (data : list Byte.byte) (nonce : Z) : Transaction.t :=
  {| Transaction.Hash := "";
     Transaction.From := from;
     Transaction.To := to;
     Transaction.Amount := amount;
     Transaction.Gas := gas;
     Transaction.GasPrice := gasPrice;
     Transaction.Data := data;
     Transaction.Nonce := nonce;
     Transaction.Signature := [];
     Transaction.Timestamp := 0 |}.

Definition Transaction_Validate (tx : Transaction.t) : option error :=
  if Address_IsZero (Transaction.From tx) then Some ErrFromZero
  else if Address_IsZero (Transaction.To tx) then Some ErrToZero
  else if CoinAmount_IsZero (Transaction.Amount tx) then Some ErrAmountZero
  else if bool_decide (Transaction.Gas tx = 0) then Some ErrGasZero
  else if bool_decide (Transaction.GasPrice tx = 0) then Some ErrGasPriceZero
  else None.

Definition Transaction_CalculateGasCost (tx : Transaction.t) : Z :=
  mach.wrap_u64 (Transaction.Gas tx * Transaction.GasPrice tx).

End types.

(** ** Package [validator] *)

Module validator.

Import types.

Definition ValidatorStatusActive : string := "active".
Definition ValidatorStatusInactive : string := "inactive".
Definition ValidatorStatusSlashed : string := "slashed".
Definition ValidatorStatusJailed : string := "jailed".

Definition SlashReasonDoubleSigning : string := "double_signing".
Definition SlashReasonDowntime : string := "downtime".
Definition SlashReasonInvalidBlock : string := "invalid_block".
Definition SlashReasonEquivocation : string := "equivocation".

Record ValidatorNode := {
  ID : string;
  Address : types.Address;
  StakeAmount : Z;
  Status : string;
  Commission : Z;
  CreatedAt : Time;
  UpdatedAt : Time;
  Description : string;
  Website : string
}.

(** [ValidatorNode{}] *)
Definition zeroNode : ValidatorNode :=
  {| ID := ""; Address := zeroAddress; StakeAmount := 0; Status := "";
     Commission := 0; CreatedAt := zeroTime; UpdatedAt := zeroTime;
     Description := ""; Website := "" |}.

Definition set_Status (s : string) (v : ValidatorNode) : ValidatorNode :=
  {| ID := ID v; Address := Address v; StakeAmount := StakeAmount v;
     Status := s; Commission := Commission v; CreatedAt := CreatedAt v;
     UpdatedAt := UpdatedAt v; Description := Description v;
     Website := Website v |}.

Definition set_StakeAmount (a : Z) (v : ValidatorNode) : ValidatorNode :=
  {| ID := ID v; Address := Address v; StakeAmount := a;
     Status := Status v; Commission := Commission v; CreatedAt := CreatedAt v;
     UpdatedAt := UpdatedAt v; Description := Description v;
     Website := Website v |}.

Definition set_CreatedAt (t : Time) (v : ValidatorNode) : ValidatorNode :=
  {| ID := ID v; Address := Address v; StakeAmount := StakeAmount v;
     Status := Status v; Commission := Commission v; CreatedAt := t;
     UpdatedAt := UpdatedAt v; Description := Description v;
     Website := Website v |}.

Definition set_UpdatedAt (t : Time) (v : ValidatorNode) : ValidatorNode :=
  {| ID := ID v; Address := Address v; StakeAmount := StakeAmount v;
     Status := Status v; Commission := Commission v; CreatedAt := CreatedAt v;
     UpdatedAt := t; Description := Description v;
     Website := Website v |}.

Module SlashRecord.
Record t := {
  ValidatorID : string;
  Reason : string;
  Amount : Z;
  Timestamp : Time;
  Height : Z
}.
End SlashRecord.

(** The [fmt.Errorf] calls of the package, with the values they format. *)
Inductive error :=
| ErrInsufficientStake (minimum got : Z)
| ErrAlreadyExists (id : string)
| ErrNotFound (id : string).

Definition Error (e : error) : string :=
  match e with
  | ErrInsufficientStake m g =>
      "insufficient stake: minimum required is " +:+ pretty m
      +:+ " UE, got " +:+ pretty g
  | ErrAlreadyExists id => "validator with ID " +:+ id +:+ " already exists"
  | ErrNotFound id => "validator with ID " +:+ id +:+ " not found"
  end.

(** The manager has one field, the map from IDs to nodes. *)
Record ValidatorManager := {
  validators : gmap string ValidatorNode
}.

Definition NewValidatorManager : ValidatorManager :=
  {| validators := ∅ |}.

Definition RegisterNode (clk : nat -> Time) (vm : ValidatorManager)
    (ctx : Context) (node : ValidatorNode) : option error * ValidatorManager :=
  if negb (IsValidatorEligible (StakeAmount node)) then
    (Some (ErrInsufficientStake MinValidatorStake (StakeAmount node)), vm)
  else
    match validators vm !! ID node with
    | Some _ => (Some (ErrAlreadyExists (ID node)), vm)
    | None =>
        let node := set_CreatedAt (clk 0%nat) node in
        let node := set_UpdatedAt (clk 1%nat) node in
        let node := set_Status ValidatorStatusActive node in
        (None, {| validators := <[ID node := node]> (validators vm) |})
    end.

Definition DeregisterNode (clk : nat -> Time) (vm : ValidatorManager)
    (ctx : Context) (nodeID : string) : option error * ValidatorManager :=
  match validators vm !! nodeID with
  | None => (Some (ErrNotFound nodeID), vm)
  | Some validator =>
      let validator := set_Status ValidatorStatusInactive validator in
      let validator := set_UpdatedAt (clk 0%nat) validator in
      (None, {| validators := <[nodeID := validator]> (validators vm) |})
  end.

(** The source ranges over the map, in an order Go leaves unspecified;
    the embedding takes the order of [map_to_list].  What the package
    computes from the result does not depend on the order (see
    [sumStakes_Permutation]). *)
Definition GetActiveValidators (vm : ValidatorManager) (ctx : Context)
    : list ValidatorNode :=
  filter (fun v => Status v = ValidatorStatusActive)
         ((map_to_list (validators vm)).*2).

Definition GetValidator (vm : ValidatorManager) (ctx : Context)
    (nodeID : string) : ValidatorNode * option error :=
  match validators vm !! nodeID with
  | None => (zeroNode, Some (ErrNotFound nodeID))
  | Some validator => (validator, None)
  end.

Definition UpdateValidator (clk : nat -> Time) (vm : ValidatorManager)
    (ctx : Context) (node : ValidatorNode) : option error * ValidatorManager :=
  match validators vm !! ID node with
  | None => (Some (ErrNotFound (ID node)), vm)
  | Some _ =>
      let node := set_UpdatedAt (clk 0%nat) node in
      (None, {| validators := <[ID node := node]> (validators vm) |})
  end.

(** The loop [for _, v := range vs { totalStake += v.StakeAmount }],
    started at [acc]. *)
Definition sumStakes (acc : Z) (vs : list ValidatorNode) : Z :=
  foldl (fun totalStake v => mach.wrap_u64 (totalStake + StakeAmount v)) acc vs.

Definition CalculateRewards (vm : ValidatorManager) (ctx : Context)
    (nodeID : string) : Z :=
  match GetValidator vm ctx nodeID with
  | (_, Some _) => 0
  | (validator, None) =>
      let activeValidators := GetActiveValidators vm ctx in
      let totalStake := sumStakes 0 activeValidators in
      let blockReward := 1000 in
      CalculateValidatorReward (StakeAmount validator) totalStake blockReward
  end.

Definition calculateSlashAmount (stakeAmount : Z) (reason : string) : Z :=
  if decide (reason = SlashReasonDoubleSigning) then stakeAmount / 2
  else if decide (reason = SlashReasonDowntime) then stakeAmount / 10
  else if decide (reason = SlashReasonInvalidBlock) then stakeAmount / 4
  else if decide (reason = SlashReasonEquivocation) then stakeAmount / 2
  else stakeAmount / 10.

Definition SlashNode (clk : nat -> Time) (vm : ValidatorManager)
    (ctx : Context) (nodeID : string) (reason : string)
    : option error * ValidatorManager :=
  match GetValidator vm ctx nodeID with
  | (_, Some err) => (Some err, vm)
  | (validator, None) =>
      let slashAmount := calculateSlashAmount (StakeAmount validator) reason in
      let validator := set_Status ValidatorStatusSlashed validator in
      let validator :=
        set_StakeAmount (mach.wrap_u64 (StakeAmount validator - slashAmount))
                        validator in
      let validator := set_UpdatedAt (clk 0%nat) validator in
      let validator :=
        if bool_decide (StakeAmount validator < MinValidatorStake)
        then set_StakeAmount 0 validator else validator in
      (None, {| validators := <[nodeID := validator]> (validators vm) |})
  end.

Definition GetTotalStake (vm : ValidatorManager) (ctx : Context) : Z :=
  sumStakes 0 (GetActiveValidators vm ctx).

Definition GetValidatorCount (vm : ValidatorManager) (ctx : Context) : Z :=
  Z.of_nat (length (GetActiveValidators vm ctx)).

(** *** Drivers of the registry *)

(** One call of a mutating method of the manager, with its arguments and
    the clock readings it gets. *)
Inductive op :=
| OpRegisterNode (clk : nat -> Time) (ctx : Context) (node : ValidatorNode)
| OpDeregisterNode (clk : nat -> Time) (ctx : Context) (nodeID : string)
| OpUpdateValidator (clk : nat -> Time) (ctx : Context) (node : ValidatorNode)
| OpSlashNode (clk : nat -> Time) (ctx : Context) (nodeID : string)
    (reason : string).

Definition apply_op (o : op) (vm : ValidatorManager)
    : option error * ValidatorManager :=
  match o with
  | OpRegisterNode clk ctx node => RegisterNode clk vm ctx node
  | OpDeregisterNode clk ctx nodeID => DeregisterNode clk vm ctx nodeID
  | OpUpdateValidator clk ctx node => UpdateValidator clk vm ctx node
  | OpSlashNode clk ctx nodeID reason => SlashNode clk vm ctx nodeID reason
  end.

(** A sequence of calls, each on the manager the previous one left. *)
Definition apply_ops (os : list op) (vm : ValidatorManager) : ValidatorManager :=
  foldl (fun vm o => (apply_op o vm).2) vm os.

Definition is_update (o : op) : bool :=
  match o with OpUpdateValidator _ _ _ => true | _ => false end.

End validator.


(** ** Package [consensus] *)

Module consensus.

Import types validator.

(** A [*types.BlockData] is a location; the blocks live in a heap.  A
    location outside the heap stands for [nil]: reading through it panics. *)
Definition loc := positive.

Record ConsensusState := {
  CurrentHeight : Z;
  CurrentRound : Z;
  Validators : list ValidatorNode;
  ProposerIndex : Z;
  Votes : list Vote.t;
  FinalizedBlocks : list loc
}.

(** The [fmt.Errorf] calls of the package, with the values they format. *)
Inductive error :=
| ErrNoValidators
| ErrNotEnoughPreCommits (preCommits totalValidators : Z).

Definition Error (e : error) : string :=
  match e with
  | ErrNoValidators => "no validators available"
  | ErrNotEnoughPreCommits p t =>
      "not enough pre-commits to finalize block: " +:+ pretty p +:+ "/"
      +:+ pretty t
  end.

(** How a call ends: it returns its [error] result, or it panics (an index
    out of range, a [nil] dereference). *)
Inductive outcome :=
| Returned (err : option error)
| Panicked.

(** A list that is a Go slice: its length is an [int]. *)
Definition is_slice {A : Type} (l : list A) : Prop :=
  Z.of_nat (length l) <= mach.max_int.

(** [s[i]] for an [int] index; [None] is the run-time panic. *)
Definition index {A : Type} (s : list A) (i : Z) : option A :=
  if bool_decide (0 <= i) then s !! Z.to_nat i else None.

(** The engine is its [state] field; [valManager] is stored at construction
    and read by no method. *)
Definition NewInMemoryConsensusEngine (initialValidators : list ValidatorNode)
    : ConsensusState :=
  {| CurrentHeight := 1;
     CurrentRound := 0;
     Validators := initialValidators;
     ProposerIndex := 0;
     Votes := [];
     FinalizedBlocks := [] |}.

Definition defaultBlockTx (now : Time) : Transaction.t :=
  {| Transaction.Hash := "tx1";
     Transaction.From := zeroAddress;
     Transaction.To := zeroAddress;
     Transaction.Amount := {| Amount := 1; Denom := "ue" |};
     Transaction.Gas := 21000;
     Transaction.GasPrice := 1;
     Transaction.Data := [];
     Transaction.Nonce := 1;
     Transaction.Signature := [];
     Transaction.Timestamp := Unix now |}.

(** [fmt.Sprintf("block_%d", height)] *)
Definition blockHash (height : Z) : string := "block_" +:+ pretty height.

(** Returns the pointer to the new block (when there is one), how the call
    ended, and the heap, in which the block has been allocated. *)
Definition ProposeBlock (clk : nat -> Time) (h : gmap loc BlockData.t)
    (st : ConsensusState) : option loc * outcome * gmap loc BlockData.t :=
  if bool_decide (length (Validators st) = 0%nat) then
    (None, Returned (Some ErrNoValidators), h)
  else
    match index (Validators st) (ProposerIndex st) with
    | None => (None, Panicked, h)
    | Some proposer =>
        let block :=
          {| BlockData.Height := CurrentHeight st;
             BlockData.Hash := blockHash (CurrentHeight st);
             BlockData.Timestamp := clk 1%nat;
             BlockData.Proposer := ID proposer;
             BlockData.Transactions := [defaultBlockTx (clk 0%nat)];
             BlockData.Consensus := ConsensusData.zero |} in
        let l := fresh (dom h) in
        (Some l, Returned None, <[l := block]> h)
    end.

(** The loop of [PreVote] and [PreCommit] over the validators still to
    vote: [k] counts the iterations done, [block] is what the pointer
    argument refers to, [votes] is [ce.state.Votes].  [None] is the panic of
    reading [block.Hash] through [nil]. *)
Fixpoint castVotes (type : string) (clk : nat -> Time) (k : nat)
    (vs : list ValidatorNode) (block : option BlockData.t)
    (votes : list Vote.t) : option (list Vote.t) :=
  match vs with
  | [] => Some votes
  | v :: vs' =>
      match block with
      | None => None
      | Some b =>
          let vote :=
            {| Vote.ValidatorID := ID v;
               Vote.BlockHash := BlockData.Hash b;
               Vote.Timestamp := clk k;
               Vote.Type_ := type |} in
          castVotes type clk (S k) vs' block (votes ++ [vote])
      end
  end.

Definition set_Votes (votes : list Vote.t) (st : ConsensusState)
    : ConsensusState :=
  {| CurrentHeight := CurrentHeight st;
     CurrentRound := CurrentRound st;
     Validators := Validators st;
     ProposerIndex := ProposerIndex st;
     Votes := votes;
     FinalizedBlocks := FinalizedBlocks st |}.

Definition PreVote (clk : nat -> Time) (h : gmap loc BlockData.t)
    (st : ConsensusState) (block : loc) : outcome * ConsensusState :=
  match castVotes VoteTypePreVote clk 0 (Validators st) (h !! block) (Votes st) with
  | None => (Panicked, st)
  | Some votes => (Returned None, set_Votes votes st)
  end.

Definition PreCommit (clk : nat -> Time) (h : gmap loc BlockData.t)
    (st : ConsensusState) (block : loc) : outcome * ConsensusState :=
  match castVotes VoteTypePreCommit clk 0 (Validators st) (h !! block) (Votes st) with
  | None => (Panicked, st)
  | Some votes => (Returned None, set_Votes votes st)
  end.

(** The counting loop of [FinalizeBlock] over the votes still to visit,
    [preCommits] being the counter.  [None] is the panic of reading
    [block.Hash] through [nil]. *)
Fixpoint countPreCommits (block : option BlockData.t) (votes : list Vote.t)
    (preCommits : Z) : option Z :=
  match votes with
  | [] => Some preCommits
  | vote :: votes' =>
      match block with
      | None => None
      | Some b =>
          if bool_decide (Vote.BlockHash vote = BlockData.Hash b)
             && bool_decide (Vote.Type_ vote = VoteTypePreCommit)
          then countPreCommits block votes' (mach.wrap_int (preCommits + 1))
          else countPreCommits block votes' preCommits
      end
  end.

Definition finalize (now : Time) (b : BlockData.t) : BlockData.t :=
  {| BlockData.Height := BlockData.Height b;
     BlockData.Hash := BlockData.Hash b;
     BlockData.Timestamp := BlockData.Timestamp b;
     BlockData.Proposer := BlockData.Proposer b;
     BlockData.Transactions := BlockData.Transactions b;
     BlockData.Consensus :=
       {| ConsensusData.PreVotes := ConsensusData.PreVotes (BlockData.Consensus b);
          ConsensusData.PreCommits := ConsensusData.PreCommits (BlockData.Consensus b);
          ConsensusData.Finalized := true;
          ConsensusData.FinalityTime := now |} |}.

Definition FinalizeBlock (clk : nat -> Time) (h : gmap loc BlockData.t)
    (st : ConsensusState) (block : loc)
    : outcome * gmap loc BlockData.t * ConsensusState :=
  let totalValidators := Z.of_nat (length (Validators st)) in
  match countPreCommits (h !! block) (Votes st) 0 with
  | None => (Panicked, h, st)
  | Some preCommits =>
      if bool_decide (totalValidators = 0) then
        (Returned (Some ErrNoValidators), h, st)
      else
        let percentage :=
          Z.quot (mach.wrap_int (preCommits * 100)) totalValidators in
        if bool_decide (ConsensusThreshold <= percentage) then
          match h !! block with
          | None => (Panicked, h, st)
          | Some b =>
              (Returned None,
               <[block := finalize (clk 0%nat) b]> h,
               {| CurrentHeight := mach.wrap_u64 (CurrentHeight st + 1);
                  CurrentRound := CurrentRound st;
                  Validators := Validators st;
                  ProposerIndex :=
                    Z.rem (mach.wrap_int (ProposerIndex st + 1)) totalValidators;
                  Votes := [];
                  FinalizedBlocks := FinalizedBlocks st ++ [block] |})
          end
        else
          (Returned (Some (ErrNotEnoughPreCommits preCommits totalValidators)),
           h, st)
  end.

Definition GetState (st : ConsensusState) : ConsensusState := st.

(** *** Drivers of the engine *)

(** One call of a method of the engine, with the clock readings it gets. *)
Inductive call :=
| CallProposeBlock (clk : nat -> Time)
| CallPreVote (clk : nat -> Time) (block : loc)
| CallPreCommit (clk : nat -> Time) (block : loc)
| CallFinalizeBlock (clk : nat -> Time) (block : loc).

Definition exec (c : call) (h : gmap loc BlockData.t) (st : ConsensusState)
    : outcome * gmap loc BlockData.t * ConsensusState :=
  match c with
  | CallProposeBlock clk =>
      let '(_, o, h') := ProposeBlock clk h st in (o, h', st)
  | CallPreVote clk block =>
      let '(o, st') := PreVote clk h st block in (o, h, st')
  | CallPreCommit clk block =>
      let '(o, st') := PreCommit clk h st block in (o, h, st')
  | CallFinalizeBlock clk block => FinalizeBlock clk h st block
  end.

(** A sequence of calls, each on the heap and state the previous one left.
    A panicking call leaves both as they were. *)
Fixpoint run (cs : list call) (h : gmap loc BlockData.t) (st : ConsensusState)
    : gmap loc BlockData.t * ConsensusState :=
  match cs with
  | [] => (h, st)
  | c :: cs' => let '(_, h', st') := exec c h st in run cs' h' st'
  end.

Definition is_finalize (c : call) : bool :=
  match c with CallFinalizeBlock _ _ => true | _ => false end.

End consensus.

(** ** The demo command of [cmd/ued] *)

Module demo.

Import types validator consensus.

(** The literal [ValidatorNode{ID: id, StakeAmount: stake}]. *)
Definition validatorLit (id : string) (stake : Z) : ValidatorNode :=
  {| ID := id; Address := zeroAddress; StakeAmount := stake; Status := "";
     Commission := 0; CreatedAt := zeroTime; UpdatedAt := zeroTime;
     Description := ""; Website := "" |}.

Definition vals : list ValidatorNode :=
  [validatorLit "val1" 30000; validatorLit "val2" 30000;
   validatorLit "val3" 30000].

(** The body of the loop of the command on the engine: propose, pre-vote,
    pre-commit and finalize, the error results of the first three being
    dropped as in the source.  [clk j] gives the clock readings of the
    j-th call.  [None] is a panic: of a call, or of the command itself,
    which reads [block.Proposer] through the pointer [ProposeBlock]
    returned, [nil] when it failed.  Otherwise the result is the error
    of [FinalizeBlock], the heap and the state. *)
Definition iteration (clk : nat -> nat -> Time) (h : gmap loc BlockData.t)
    (st : ConsensusState)
    : option (option consensus.error * gmap loc BlockData.t * ConsensusState) :=
  match ProposeBlock (clk 0%nat) h st with
  | (_, Panicked, _) => None
  | (None, Returned _, _) => None
  | (Some block, Returned _, h) =>
      match PreVote (clk 1%nat) h st block with
      | (Panicked, _) => None
      | (Returned _, st) =>
          match PreCommit (clk 2%nat) h st block with
          | (Panicked, _) => None
          | (Returned _, st) =>
              match FinalizeBlock (clk 3%nat) h st block with
              | (Panicked, _, _) => None
              | (Returned err, h, st) => Some (err, h, st)
              end
          end
      end
  end.

(** [n] iterations of the loop, the first being the [i]-th, whose calls
    read the clocks [clks i]. *)
Fixpoint loop (clks : nat -> nat -> nat -> Time) (i n : nat)
    (h : gmap loc BlockData.t) (st : ConsensusState)
    : option (gmap loc BlockData.t * ConsensusState) :=
  match n with
  | O => Some (h, st)
  | S n' =>
      match iteration (clks i) h st with
      | None => None
      | Some (_, h', st') => loop clks (S i) n' h' st'
      end
  end.

(** The manager of the command after its registration loop, whose error
    results are dropped. *)
Definition demoManager (clks : nat -> nat -> Time) (ctx : Context)
    : ValidatorManager :=
  foldl (fun vm iv => (RegisterNode (clks iv.1) vm ctx iv.2).2)
        NewValidatorManager (imap (fun i v => (i, v)) vals).

(** The 200 iterations of the command on a new engine. *)
Definition demoConsensus (clks : nat -> nat -> nat -> Time)
    : option (gmap loc BlockData.t * ConsensusState) :=
  loop clks 0 200 ∅ (NewInMemoryConsensusEngine vals).

End demo.

(** ** Reference notions the properties are stated with *)

Module spec.

Import types validator consensus.

Definition sumZ (l : list Z) : Z := foldr Z.add 0 l.

(** The total stake of the validators with status [active], as an exact
    integer (no wrap-around). *)
Definition totalActiveStake (vm : ValidatorManager) : Z :=
  sumZ (StakeAmount <$>
          filter (fun v => Status v = ValidatorStatusActive)
                 ((map_to_list (validators vm)).*2)).

(** What a validator contributes to the total active stake. *)
Definition activeStake (v : ValidatorNode) : Z :=
  if decide (Status v = ValidatorStatusActive) then StakeAmount v else 0.

(** Every stake held by the manager is a [uint64]. *)
Definition wf_registry (vm : ValidatorManager) : Prop :=
  map_Forall (fun _ v => mach.is_u64 (StakeAmount v)) (validators vm).

(** What a slash history kept by the manager would be: an observation
    [hist] of the manager that every successful slash extends by exactly one
    record carrying the validator, the cause and the amount deducted. *)
Definition records_slashes (hist : ValidatorManager -> list SlashRecord.t) : Prop :=
  forall clk vm ctx nodeID reason v,
    validators vm !! nodeID = Some v ->
    exists r,
      hist (SlashNode clk vm ctx nodeID reason).2 = hist vm ++ [r]
      /\ SlashRecord.ValidatorID r = nodeID
      /\ SlashRecord.Reason r = reason
      /\ SlashRecord.Amount r = calculateSlashAmount (StakeAmount v) reason.

(** The number of votes for [hash] of type pre-commit. *)
Definition matchingPreCommits (hash : string) (votes : list Vote.t) : nat :=
  length (filter (fun vote => Vote.BlockHash vote = hash
                              /\ Vote.Type_ vote = VoteTypePreCommit) votes).

(** One vote of type [type] for [hash] per validator of [vs], in order, the
    i-th stamped [clk i]. *)
Definition votesFor (type : string) (clk : nat -> Time) (hash : string)
    (vs : list ValidatorNode) : list Vote.t :=
  imap (fun i v => {| Vote.ValidatorID := ID v;
                      Vote.BlockHash := hash;
                      Vote.Timestamp := clk i;
                      Vote.Type_ := type |}) vs.

(** What holds of every state of an engine built on the snapshot [vals]:
    the snapshot is kept, the height is one more than the number of
    finalized blocks (modulo [2^64]), and the proposer index is an index
    into the snapshot (0 when the snapshot is empty). *)
Definition engine_inv (vals : list ValidatorNode) (st : ConsensusState) : Prop :=
  Validators st = vals
  /\ CurrentHeight st
     = mach.wrap_u64 (1 + Z.of_nat (length (FinalizedBlocks st)))
  /\ 0 <= ProposerIndex st < Z.max 1 (Z.of_nat (length vals)).

(** The vote tally of [FinalizeBlock] stays within [int]. *)
Definition tally_fits (st : ConsensusState) : Prop :=
  Z.of_nat (length (Votes st)) * 100 <= mach.max_int.

(** Every validator is stored under its own ID. *)
Definition keyed (vm : ValidatorManager) : Prop :=
  map_Forall (fun k v => ID v = k) (validators vm).

(** Every stake is a [uint64] that is 0 or at least the minimum, and the
    active validators hold at least the minimum. *)
Definition stakes_sound (vm : ValidatorManager) : Prop :=
  map_Forall (fun _ v =>
    mach.is_u64 (StakeAmount v)
    /\ (StakeAmount v = 0 \/ MinValidatorStake <= StakeAmount v)
    /\ (Status v = ValidatorStatusActive -> MinValidatorStake <= StakeAmount v))
    (validators vm).

(** The stake a call registers, if it registers one, is a [uint64]. *)
Definition op_typed (o : op) : Prop :=
  match o with
  | OpRegisterNode _ _ node => mach.is_u64 (StakeAmount node)
  | _ => True
  end.

(** The rewards of the active validators, added up. *)
Definition totalActiveRewards (vm : ValidatorManager) (ctx : Context) : Z :=
  sumZ ((fun v => CalculateRewards vm ctx (ID v)) <$> GetActiveValidators vm ctx).

(** No byte of the string is a decimal digit. *)
Definition digitless (s : string) : Prop :=
  Forall (fun c => isDigit c = false) (String.list_ascii_of_string s).

(** What holds after [k] iterations of the loop of the demo command on a
    new engine over [vals]: the invariant of the engine, no outstanding
    vote, [k] finalized blocks, the proposer index [k mod] the number of
    validators, and, for each [j < k], the [j]-th block of the history
    proposed by the validator of index [j mod] that number, of height
    [1 + j], and marked finalized. *)
Definition rounds_done (vals : list ValidatorNode) (k : nat)
    (h : gmap loc BlockData.t) (st : ConsensusState) : Prop :=
  engine_inv vals st
  /\ Votes st = []
  /\ length (FinalizedBlocks st) = k
  /\ ProposerIndex st = Z.of_nat k mod Z.of_nat (length vals)
  /\ forall j, (j < k)%nat ->
       exists l b v,
         FinalizedBlocks st !! j = Some l
         /\ h !! l = Some b
         /\ vals !! (j mod length vals)%nat = Some v
         /\ BlockData.Proposer b = ID v
         /\ BlockData.Height b = 1 + Z.of_nat j
         /\ ConsensusData.Finalized (BlockData.Consensus b) = true.

End spec.

(** ** Concrete registries and engines used in examples *)

Module examples.

Import types validator consensus.

Definition ctx0 : Context :=
  {| ctx_Height := 0; ctx_Timestamp := zeroTime; ctx_ChainID := "" |}.

(** The node literal [ValidatorNode{ID: id, StakeAmount: stake}]. *)
Definition node (id : string) (stake : Z) : ValidatorNode :=
  {| ID := id; Address := zeroAddress; StakeAmount := stake; Status := "";
     Commission := 0; CreatedAt := zeroTime; UpdatedAt := zeroTime;
     Description := ""; Website := "" |}.

Definition clk0 : nat -> Time := fun k => 1000 + Z.of_nat k.

(** The manager after registering the nodes of [ns], in order. *)
Definition registered (ns : list ValidatorNode) : ValidatorManager :=
  foldl (fun vm n => (RegisterNode clk0 vm ctx0 n).2) NewValidatorManager ns.

(** A single validator holding the minimum stake. *)
Definition vm_min : ValidatorManager := registered [node "v" 28846].

(** A single validator whose stake times the block reward exceeds [2^64]. *)
Definition vm_big : ValidatorManager :=
  registered [node "a" 18446744073709552].

(** Two validators, the first with the larger stake. *)
Definition vm_big2 : ValidatorManager :=
  registered [node "a" 18446744073709552; node "b" 10000000000000000].

(** Two validators with stakes 30000 and 60000. *)
Definition vm_ab : ValidatorManager :=
  registered [node "a" 30000; node "b" 60000].

(** Validator "a" registered with the minimum stake, validator "s"
    registered with 64103 and then slashed for downtime. *)
Definition vm_slashed : ValidatorManager :=
  (SlashNode clk0 (registered [node "a" 28846; node "s" 64103]) ctx0 "s"
             SlashReasonDowntime).2.

(** Validator "x" registered with stake [2^63] and then deregistered,
    next to the active validator "y" holding the minimum stake. *)
Definition vm_inactive_big : ValidatorManager :=
  (DeregisterNode clk0
     (registered [node "x" 9223372036854775808; node "y" 28846]) ctx0 "x").2.

Definition clk1 : nat -> Time := fun k => 2000 + Z.of_nat k.

(** The validators of the demo command. *)
Definition vals3 : list ValidatorNode :=
  [node "val1" 30000; node "val2" 30000; node "val3" 30000].

Definition engine3 : ConsensusState := NewInMemoryConsensusEngine vals3.

(** The heap after a first proposal by [engine3]; the block is at
    location 1. *)
Definition heap1 : gmap loc BlockData.t :=
  (ProposeBlock clk0 ∅ engine3).2.

(** A pre-commit vote of validator [id] for the block of height 1. *)
Definition preCommit1 (id : string) : Vote.t :=
  {| Vote.ValidatorID := id; Vote.BlockHash := "block_1";
     Vote.Timestamp := 1500; Vote.Type_ := VoteTypePreCommit |}.

(** [engine3] holding two, and three, pre-commits for the block of
    height 1. *)
Definition engine3_two : ConsensusState :=
  set_Votes [preCommit1 "val1"; preCommit1 "val2"] engine3.

Definition engine3_three : ConsensusState :=
  set_Votes [preCommit1 "val1"; preCommit1 "val2"; preCommit1 "val3"] engine3.

(** One round of the demo command up to the pre-commits: propose, then
    pre-vote and pre-commit on the block proposed, at location 1. *)
Definition round1 : list call :=
  [CallProposeBlock clk0; CallPreVote clk0 1%positive;
   CallPreCommit clk0 1%positive].

End examples.

(** * Properties *)

Module mach_facts.

Import mach.

Lemma wrap_u64_id z : is_u64 z -> wrap_u64 z = z.
Proof. unfold is_u64, wrap_u64. intros H. apply Z.mod_small. lia. Qed.

Lemma wrap_u64_range z : is_u64 (wrap_u64 z).
Proof. unfold is_u64, wrap_u64. apply Z.mod_pos_bound. lia. Qed.

Lemma wrap_int_id z : is_int z -> wrap_int z = z.
Proof.
  unfold is_int, wrap_int. intros H.
  rewrite Z.mod_small by lia. lia.
Qed.

Lemma wrap_int_range z : is_int (wrap_int z).
Proof.
  unfold is_int, wrap_int.
  pose proof (Z.mod_pos_bound (z + 2 ^ 63) (2 ^ 64)). lia.
Qed.

Lemma wrap_u64_add_l a b : wrap_u64 (wrap_u64 a + b) = wrap_u64 (a + b).
Proof. unfold wrap_u64. apply Zplus_mod_idemp_l. Qed.

End mach_facts.

(** ** The validator registry *)

Module validator_facts.

Import mach types validator spec mach_facts.

Lemma sumZ_Permutation l k : l ≡ₚ k -> sumZ l = sumZ k.
Proof. induction 1; simpl; lia. Qed.

#[local] Instance sumZ_proper : Proper ((≡ₚ) ==> (=)) sumZ.
Proof. exact sumZ_Permutation. Qed.

Lemma sumZ_nonneg l : Forall (fun z => 0 <= z) l -> 0 <= sumZ l.
Proof. induction 1; simpl; lia. Qed.

(** The summing loop computes the exact sum modulo [2^64]. *)
Lemma sumStakes_wrap vs : forall acc,
  is_u64 acc -> sumStakes acc vs = wrap_u64 (acc + sumZ (StakeAmount <$> vs)).
Proof.
  unfold sumStakes.
  induction vs as [|v vs IH]; intros acc Hacc; simpl.
  - rewrite Z.add_0_r. symmetry. by apply wrap_u64_id.
  - rewrite IH by apply wrap_u64_range.
    rewrite wrap_u64_add_l. f_equal. unfold sumZ. simpl.
    rewrite <- Z.add_assoc. reflexivity.
Qed.

(** The order in which the map is ranged over does not matter. *)
Lemma sumStakes_Permutation vs ws :
  vs ≡ₚ ws -> sumStakes 0 vs = sumStakes 0 ws.
Proof.
  intros Hp. rewrite !sumStakes_wrap by (unfold is_u64; lia).
  by rewrite Hp.
Qed.

Lemma GetTotalStake_exact vm ctx :
  GetTotalStake vm ctx = wrap_u64 (totalActiveStake vm).
Proof.
  unfold GetTotalStake, GetActiveValidators, totalActiveStake.
  rewrite sumStakes_wrap by (unfold is_u64; lia). done.
Qed.

Lemma totalActiveStake_delete vm i x :
  validators vm !! i = Some x ->
  totalActiveStake vm
  = activeStake x + totalActiveStake {| validators := delete i (validators vm) |}.
Proof.
  intros Hi. unfold totalActiveStake, activeStake. simpl.
  rewrite <- (map_to_list_delete _ _ _ Hi) at 1.
  rewrite fmap_cons. simpl. rewrite filter_cons.
  case_decide; reflexivity.
Qed.

Lemma totalActiveStake_nonneg vm : wf_registry vm -> 0 <= totalActiveStake vm.
Proof.
  unfold wf_registry, totalActiveStake. intros Hwf.
  apply sumZ_nonneg. apply Forall_fmap, Forall_forall.
  intros v Hv. apply list_elem_of_filter in Hv as [_ Hv].
  apply list_elem_of_fmap in Hv as [[i w] [-> Hv]].
  apply elem_of_map_to_list in Hv. simpl.
  destruct (Hwf i w Hv). lia.
Qed.

Lemma activeStake_le_total vm i x :
  wf_registry vm -> validators vm !! i = Some x ->
  0 <= activeStake x <= totalActiveStake vm.
Proof.
  intros Hwf Hi. rewrite (totalActiveStake_delete vm i x Hi).
  assert (0 <= totalActiveStake {| validators := delete i (validators vm) |}).
  { apply totalActiveStake_nonneg. unfold wf_registry. simpl.
    by apply map_Forall_delete. }
  assert (0 <= activeStake x).
  { unfold activeStake. case_decide; [|lia]. destruct (Hwf i x Hi). lia. }
  lia.
Qed.

(** *** Registration *)

(** C6. [RegisterNode] succeeds exactly when the stake is at least
    [MinValidatorStake] (28846) and the ID is not registered yet.  A stake
    below the minimum gives the insufficient-stake error, an ID already
    present (with a sufficient stake) the already-exists error, and in both
    cases the manager is unchanged.  A success adds exactly one entry, under
    the node's ID, stored with status [active], and touches no other entry. *)
Theorem RegisterNode_iff_eligible_and_new clk vm ctx node :
  let r := RegisterNode clk vm ctx node in
  (r.1 = None
   <-> MinValidatorStake <= StakeAmount node /\ validators vm !! ID node = None)
  /\ (StakeAmount node < MinValidatorStake ->
      r = (Some (ErrInsufficientStake MinValidatorStake (StakeAmount node)), vm))
  /\ (MinValidatorStake <= StakeAmount node ->
      is_Some (validators vm !! ID node) ->
      r = (Some (ErrAlreadyExists (ID node)), vm))
  /\ (r.1 <> None -> r.2 = vm)
  /\ (r.1 = None ->
      exists stored,
        validators r.2 = <[ID node := stored]> (validators vm)
        /\ validators r.2 !! ID node = Some stored
        /\ Status stored = ValidatorStatusActive
        /\ ID stored = ID node
        /\ StakeAmount stored = StakeAmount node
        /\ size (validators r.2) = S (size (validators vm))
        /\ (forall j, j <> ID node ->
                      validators r.2 !! j = validators vm !! j)).
Proof.
  unfold RegisterNode, IsValidatorEligible. simpl.
  case_bool_decide as Hstake; simpl.
  - destruct (validators vm !! ID node) as [old|] eqn:Hold; simpl.
    + split_and!; try done; try (intros; lia).
      split; [done | intros [_ ?]; done].
    + split_and!; try done; try (intros; lia).
      intros _. eexists. split_and!; try done.
      * apply lookup_insert_eq.
      * by apply map_size_insert_None.
      * intros j Hj. by apply lookup_insert_ne.
  - split_and!; try done; try (intros; lia).
    split; [done | intros [? _]; lia].
Qed.

(** *** Slashing *)

Lemma calculateSlashAmount_bounds stake reason :
  0 <= stake -> 0 <= calculateSlashAmount stake reason <= stake.
Proof.
  intros Hs. unfold calculateSlashAmount.
  repeat case_decide;
    (split; [apply Z.div_pos; lia | apply Z.div_le_upper_bound; lia]).
Qed.

(** What [SlashNode] stores for a registered validator [v]. *)
Lemma SlashNode_registered clk vm ctx nodeID reason v :
  validators vm !! nodeID = Some v ->
  let left := wrap_u64 (StakeAmount v - calculateSlashAmount (StakeAmount v) reason) in
  let v1 := set_UpdatedAt (clk 0%nat)
              (set_StakeAmount left (set_Status ValidatorStatusSlashed v)) in
  SlashNode clk vm ctx nodeID reason
  = (None,
     {| validators :=
          <[nodeID := if bool_decide (left < MinValidatorStake)
                      then set_StakeAmount 0 v1 else v1]> (validators vm) |}).
Proof.
  intros Hv. unfold SlashNode, GetValidator. rewrite Hv. reflexivity.
Qed.

(** C5. Slashing a registered validator deducts half of the stake for
    double signing, a quarter for an invalid block, a tenth for downtime,
    half for equivocation and a tenth for any other cause (integer
    division), and sets the status to [slashed].  When what is left is below
    [MinValidatorStake] (28846) the stake becomes 0; so the new stake is
    either 0 or at least the minimum, and never negative. *)
Theorem SlashNode_penalty_and_floor clk vm ctx nodeID reason v :
  validators vm !! nodeID = Some v ->
  is_u64 (StakeAmount v) ->
  let stake := StakeAmount v in
  let amount := calculateSlashAmount stake reason in
  let r := SlashNode clk vm ctx nodeID reason in
  (reason = SlashReasonDoubleSigning -> amount = stake / 2)
  /\ (reason = SlashReasonInvalidBlock -> amount = stake / 4)
  /\ (reason = SlashReasonDowntime -> amount = stake / 10)
  /\ (reason = SlashReasonEquivocation -> amount = stake / 2)
  /\ (reason <> SlashReasonDoubleSigning -> reason <> SlashReasonInvalidBlock ->
      reason <> SlashReasonDowntime -> reason <> SlashReasonEquivocation ->
      amount = stake / 10)
  /\ r.1 = None
  /\ exists v',
       validators r.2 !! nodeID = Some v'
       /\ Status v' = ValidatorStatusSlashed
       /\ StakeAmount v'
          = (if decide (stake - amount < MinValidatorStake) then 0
             else stake - amount)
       /\ (StakeAmount v' = 0 \/ MinValidatorStake <= StakeAmount v').
Proof.
  intros Hv Hu stake amount r.
  assert (Hamt : 0 <= amount <= stake)
    by (apply calculateSlashAmount_bounds; destruct Hu; done).
  assert (Hleft : wrap_u64 (stake - amount) = stake - amount)
    by (apply wrap_u64_id; unfold is_u64 in *; subst stake; lia).
  split_and!.
  - intros ->. done.
  - intros ->. done.
  - intros ->. done.
  - intros ->. done.
  - intros H1 H2 H3 H4. subst amount. unfold calculateSlashAmount.
    repeat case_decide; done.
  - subst r. by rewrite (SlashNode_registered _ _ _ _ _ _ Hv).
  - subst r. rewrite (SlashNode_registered _ _ _ _ _ _ Hv). simpl.
    fold stake. fold amount. rewrite Hleft.
    eexists. split; [apply lookup_insert_eq|].
    case_bool_decide; case_decide; try lia; simpl; split_and!; try done.
    + by left.
    + right. lia.
Qed.

(** At the minimum stake, a slash for double signing leaves 14423, below
    the minimum: the stake becomes 0. *)
Lemma SlashNode_penalty_and_floor_witness :
  exists v',
    validators (SlashNode examples.clk0 examples.vm_min examples.ctx0 "v"
                          SlashReasonDoubleSigning).2 !! "v" = Some v'
    /\ Status v' = ValidatorStatusSlashed
    /\ StakeAmount v' = 0.
Proof.
  assert (Hv : validators examples.vm_min !! "v"
               = Some (set_Status ValidatorStatusActive
                         (set_UpdatedAt (examples.clk0 1%nat)
                            (set_CreatedAt (examples.clk0 0%nat)
                               (examples.node "v" 28846)))))
    by (vm_compute; reflexivity).
  assert (Hu : is_u64 28846) by (unfold is_u64; lia).
  destruct (SlashNode_penalty_and_floor examples.clk0 examples.vm_min
              examples.ctx0 "v" SlashReasonDoubleSigning _ Hv Hu)
    as (_ & _ & _ & _ & _ & _ & v' & Hl & Hs & Ha & _).
  exists v'. split_and!; [exact Hl | exact Hs | exact Ha].
Defined.

(** C3, as stated, fails: the manager keeps no slash history.  Slashing
    the validator of [vm_min] for downtime (2884 deducted) and for double
    signing (14423 deducted) leaves the same manager, so no observation of
    the manager can have gained a record of the cause in both cases. *)
Lemma SlashNode_appends_no_record :
  ~ exists hist, records_slashes hist.
Proof.
  intros [hist Hhist].
  assert (Hv : validators examples.vm_min !! "v"
               = Some (set_Status ValidatorStatusActive
                         (set_UpdatedAt (examples.clk0 1%nat)
                            (set_CreatedAt (examples.clk0 0%nat)
                               (examples.node "v" 28846)))))
    by (vm_compute; reflexivity).
  destruct (Hhist examples.clk0 examples.vm_min examples.ctx0 "v"
              SlashReasonDowntime _ Hv) as (r1 & E1 & _ & R1 & _).
  destruct (Hhist examples.clk0 examples.vm_min examples.ctx0 "v"
              SlashReasonDoubleSigning _ Hv) as (r2 & E2 & _ & R2 & _).
  assert (Hsame :
    (SlashNode examples.clk0 examples.vm_min examples.ctx0 "v"
               SlashReasonDowntime).2
    = (SlashNode examples.clk0 examples.vm_min examples.ctx0 "v"
                 SlashReasonDoubleSigning).2)
    by (vm_compute; reflexivity).
  rewrite Hsame, E2 in E1.
  apply app_inv_head in E1. injection E1 as E1.
  rewrite E1, R1 in R2. discriminate R2.
Qed.

(** C3, amended. A successful slash replaces the entry of the validator in
    the map, which is all the manager holds: the new entry has status
    [slashed], the reduced (or zeroed) stake and a new update time, and is
    otherwise the old one; no other entry changes; and of the cause nothing
    but the penalty it determines is kept, two causes of equal penalty
    leaving the same manager. *)
Theorem SlashNode_updates_entry_only clk vm ctx nodeID reason v :
  validators vm !! nodeID = Some v ->
  exists v',
    SlashNode clk vm ctx nodeID reason
    = (None, {| validators := <[nodeID := v']> (validators vm) |})
    /\ Status v' = ValidatorStatusSlashed
    /\ StakeAmount v'
       = (let left := wrap_u64 (StakeAmount v
                                - calculateSlashAmount (StakeAmount v) reason) in
          if bool_decide (left < MinValidatorStake) then 0 else left)
    /\ UpdatedAt v' = clk 0%nat
    /\ ID v' = ID v /\ Address v' = Address v /\ Commission v' = Commission v
    /\ CreatedAt v' = CreatedAt v /\ Description v' = Description v
    /\ Website v' = Website v
    /\ (forall j, j <> nodeID ->
          validators (SlashNode clk vm ctx nodeID reason).2 !! j
          = validators vm !! j)
    /\ dom (validators (SlashNode clk vm ctx nodeID reason).2)
       = dom (validators vm)
    /\ (forall reason',
          calculateSlashAmount (StakeAmount v) reason'
          = calculateSlashAmount (StakeAmount v) reason ->
          SlashNode clk vm ctx nodeID reason'
          = SlashNode clk vm ctx nodeID reason).
Proof.
  intros Hv. rewrite (SlashNode_registered _ _ _ _ _ _ Hv). simpl.
  eexists. split; [reflexivity|].
  split_and!; try (case_bool_decide; reflexivity).
  - intros j Hj. by apply lookup_insert_ne.
  - apply set_eq. intros j. rewrite dom_insert_L, elem_of_union, elem_of_singleton.
    split; [intros [->|?]; [|done] | by right].
    apply elem_of_dom. by eexists.
  - intros reason' Heq.
    rewrite (SlashNode_registered _ _ _ _ reason' _ Hv). simpl.
    by rewrite Heq.
Qed.

(** Slashing the validator of [vm_min] for downtime: 28846 - 2884 is below
    the minimum, so the stored stake is 0. *)
Lemma SlashNode_updates_entry_only_witness :
  exists v',
    SlashNode examples.clk0 examples.vm_min examples.ctx0 "v" SlashReasonDowntime
    = (None, {| validators := <["v" := v']> (validators examples.vm_min) |})
    /\ Status v' = ValidatorStatusSlashed
    /\ StakeAmount v' = 0.
Proof.
  assert (Hv : validators examples.vm_min !! "v"
               = Some (set_Status ValidatorStatusActive
                         (set_UpdatedAt (examples.clk0 1%nat)
                            (set_CreatedAt (examples.clk0 0%nat)
                               (examples.node "v" 28846)))))
    by (vm_compute; reflexivity).
  destruct (SlashNode_updates_entry_only examples.clk0 examples.vm_min
              examples.ctx0 "v" SlashReasonDowntime _ Hv)
    as (v' & Hr & Hs & Ha & _).
  exists v'. split_and!; [exact Hr | exact Hs | exact Ha].
Defined.

(** *** Rewards *)

Lemma CalculateRewards_unregistered vm ctx nodeID :
  validators vm !! nodeID = None -> CalculateRewards vm ctx nodeID = 0.
Proof. intros H. unfold CalculateRewards, GetValidator. by rewrite H. Qed.

Lemma CalculateRewards_registered vm ctx nodeID v :
  validators vm !! nodeID = Some v ->
  CalculateRewards vm ctx nodeID
  = CalculateValidatorReward (StakeAmount v) (GetTotalStake vm ctx) 1000.
Proof. intros H. unfold CalculateRewards, GetValidator. by rewrite H. Qed.

(** Within [uint64] the reward is the exact quotient. *)
Lemma CalculateRewards_exact vm ctx nodeID v :
  wf_registry vm ->
  validators vm !! nodeID = Some v ->
  StakeAmount v * 1000 < 2 ^ 64 ->
  0 < totalActiveStake vm < 2 ^ 64 ->
  CalculateRewards vm ctx nodeID = StakeAmount v * 1000 / totalActiveStake vm.
Proof.
  intros Hwf Hv Hs Ht.
  rewrite (CalculateRewards_registered _ _ _ _ Hv), GetTotalStake_exact.
  rewrite (wrap_u64_id (totalActiveStake vm)) by (unfold is_u64; lia).
  unfold CalculateValidatorReward.
  rewrite bool_decide_eq_false_2 by lia.
  rewrite wrap_u64_id; [done|].
  destruct (Hwf _ _ Hv). unfold is_u64. lia.
Qed.

Lemma filter_none {A} (P : A -> Prop) `{forall x, Decision (P x)} (l : list A) :
  Forall (fun x => ~ P x) l -> filter P l = [].
Proof.
  induction 1 as [|x l Hx _ IH]; [done|].
  rewrite filter_cons. by rewrite decide_False.
Qed.

Lemma totalActiveStake_no_active vm :
  (forall j w, validators vm !! j = Some w -> Status w <> ValidatorStatusActive) ->
  totalActiveStake vm = 0.
Proof.
  intros Hna. unfold totalActiveStake.
  rewrite filter_none; [done|].
  apply Forall_forall. intros w Hw.
  apply list_elem_of_fmap in Hw as [[j w'] [-> Hw]].
  apply elem_of_map_to_list in Hw. by apply (Hna j).
Qed.

(** The total when exactly the validators at [a] and [b] are active. *)
Lemma totalActiveStake_two vm a b A B :
  a <> b ->
  validators vm !! a = Some A -> validators vm !! b = Some B ->
  Status A = ValidatorStatusActive -> Status B = ValidatorStatusActive ->
  (forall j w, validators vm !! j = Some w ->
               Status w = ValidatorStatusActive -> j = a \/ j = b) ->
  totalActiveStake vm = StakeAmount A + StakeAmount B.
Proof.
  intros Hab HA HB HsA HsB Hothers.
  rewrite (totalActiveStake_delete vm a A HA).
  rewrite (totalActiveStake_delete _ b B); simpl;
    [|by rewrite lookup_delete_ne].
  rewrite totalActiveStake_no_active.
  - unfold activeStake. rewrite !decide_True by done. lia.
  - simpl. intros j w Hj Hact.
    apply lookup_delete_Some in Hj as [Hjb Hj].
    apply lookup_delete_Some in Hj as [Hja Hj].
    destruct (Hothers j w Hj Hact); congruence.
Qed.

(** Rewards of two stakes out of their sum are proportional to the stakes
    up to the truncation of the divisions. *)
Lemma quotients_proportional sA sB :
  0 <= sA -> 0 <= sB -> 0 < sA + sB ->
  Z.abs (sA * 1000 / (sA + sB) * sB - sB * 1000 / (sA + sB) * sA)
  < Z.max sA sB.
Proof.
  intros HA HB HT. set (T := sA + sB) in *.
  pose proof (Z.div_mod (sA * 1000) T ltac:(lia)) as EA.
  pose proof (Z.mod_pos_bound (sA * 1000) T HT) as BA.
  pose proof (Z.div_mod (sB * 1000) T ltac:(lia)) as EB.
  pose proof (Z.mod_pos_bound (sB * 1000) T HT) as BB.
  set (rA := sA * 1000 / T) in *. set (rB := sB * 1000 / T) in *.
  set (eA := (sA * 1000) mod T) in *. set (eB := (sB * 1000) mod T) in *.
  assert (E : T * (rA * sB - rB * sA) = eB * sA - eA * sB) by nia.
  assert (U : rA * sB - rB * sA < Z.max sA sB).
  { destruct (Z.eq_dec sA 0) as [->|].
    - assert (eA = 0) by (subst eA; apply Z.mod_0_l; lia). nia.
    - assert (rA * sB - rB * sA < sA) by nia. lia. }
  assert (L : - Z.max sA sB < rA * sB - rB * sA).
  { destruct (Z.eq_dec sB 0) as [->|].
    - assert (eB = 0) by (subst eB; apply Z.mod_0_l; lia). nia.
    - assert (- sB < rA * sB - rB * sA) by nia. lia. }
  lia.
Qed.

Lemma wf_registry_decide vm :
  bool_decide (map_Forall (fun _ v => bool_decide (0 <= StakeAmount v)
                                      && bool_decide (StakeAmount v < 2 ^ 64))
                          (validators vm)) = true ->
  wf_registry vm.
Proof.
  intros H. apply bool_decide_eq_true_1 in H.
  intros i v Hv. specialize (H i v Hv). simpl in H.
  apply andb_prop_elim in H as [H1 H2].
  apply bool_decide_unpack in H1, H2. by split.
Qed.

(** C8, as stated, fails where the [uint64] product wraps around.  The only
    validator of [vm_big] holds all the active stake, 18446744073709552, and
    the exact quotient is the whole block reward 1000; the product with 1000
    wraps to 384 and the reward returned is 0.  In [vm_big2] validator "a"
    holds more stake than "b" and is paid 0 while "b" is paid 351. *)
Lemma CalculateRewards_wraps_around :
  wf_registry examples.vm_big
  /\ StakeAmount <$> validators examples.vm_big !! "a" = Some 18446744073709552
  /\ totalActiveStake examples.vm_big = 18446744073709552
  /\ CalculateRewards examples.vm_big examples.ctx0 "a" = 0
  /\ 18446744073709552 * 1000 / totalActiveStake examples.vm_big = 1000
  /\ StakeAmount <$> validators examples.vm_big2 !! "a" = Some 18446744073709552
  /\ StakeAmount <$> validators examples.vm_big2 !! "b" = Some 10000000000000000
  /\ CalculateRewards examples.vm_big2 examples.ctx0 "a" = 0
  /\ CalculateRewards examples.vm_big2 examples.ctx0 "b" = 351.
Proof.
  split; [apply wf_registry_decide; vm_compute; reflexivity|].
  split_and!; vm_compute; reflexivity.
Qed.

(** C8, amended. With every stake a [uint64]: the reward of an unregistered
    ID is 0; the reward is 0 when the total active stake is 0; when
    [stake * 1000] and the total active stake are below [2^64] (so that the
    product and the sum do not wrap around), the reward of a registered
    validator is [stake * 1000 / total] with flooring division; and then,
    for two active validators with no others active, the two rewards are
    these quotients out of the sum of the two stakes, proportional to the
    stakes up to the truncation. *)
Theorem CalculateRewards_in_range vm ctx nodeID :
  wf_registry vm ->
  (validators vm !! nodeID = None -> CalculateRewards vm ctx nodeID = 0)
  /\ (totalActiveStake vm = 0 -> CalculateRewards vm ctx nodeID = 0)
  /\ (forall v,
        validators vm !! nodeID = Some v ->
        StakeAmount v * 1000 < 2 ^ 64 ->
        0 < totalActiveStake vm < 2 ^ 64 ->
        CalculateRewards vm ctx nodeID
        = StakeAmount v * 1000 / totalActiveStake vm)
  /\ (forall a b A B,
        a <> b ->
        validators vm !! a = Some A -> validators vm !! b = Some B ->
        Status A = ValidatorStatusActive -> Status B = ValidatorStatusActive ->
        (forall j w, validators vm !! j = Some w ->
                     Status w = ValidatorStatusActive -> j = a \/ j = b) ->
        StakeAmount A * 1000 < 2 ^ 64 -> StakeAmount B * 1000 < 2 ^ 64 ->
        0 < StakeAmount A + StakeAmount B ->
        let rA := CalculateRewards vm ctx a in
        let rB := CalculateRewards vm ctx b in
        rA = StakeAmount A * 1000 / (StakeAmount A + StakeAmount B)
        /\ rB = StakeAmount B * 1000 / (StakeAmount A + StakeAmount B)
        /\ Z.abs (rA * StakeAmount B - rB * StakeAmount A)
           < Z.max (StakeAmount A) (StakeAmount B)).
Proof.
  intros Hwf. split_and!.
  - apply CalculateRewards_unregistered.
  - intros Ht. destruct (validators vm !! nodeID) as [v|] eqn:Hv.
    + rewrite (CalculateRewards_registered _ _ _ _ Hv), GetTotalStake_exact, Ht.
      reflexivity.
    + by apply CalculateRewards_unregistered.
  - intros v Hv Hs Ht. by apply CalculateRewards_exact.
  - intros a b A B Hab HA HB HsA HsB Hothers HmA HmB Hpos rA rB.
    pose proof (totalActiveStake_two vm a b A B Hab HA HB HsA HsB Hothers) as Ht.
    destruct (Hwf _ _ HA) as [HA0 _]. destruct (Hwf _ _ HB) as [HB0 _].
    assert (ErA : rA = StakeAmount A * 1000 / (StakeAmount A + StakeAmount B)).
    { subst rA. rewrite <- Ht. apply CalculateRewards_exact; try done. lia. }
    assert (ErB : rB = StakeAmount B * 1000 / (StakeAmount A + StakeAmount B)).
    { subst rB. rewrite <- Ht. apply CalculateRewards_exact; try done. lia. }
    split_and!; [done | done |].
    rewrite ErA, ErB. by apply quotients_proportional.
Qed.

(** In [vm_ab] the stakes are 30000 and 60000: "a" is paid 333. *)
Lemma CalculateRewards_in_range_witness :
  wf_registry examples.vm_ab
  /\ CalculateRewards examples.vm_ab examples.ctx0 "a" = 30000 * 1000 / 90000.
Proof.
  assert (Hwf : wf_registry examples.vm_ab)
    by (apply wf_registry_decide; vm_compute; reflexivity).
  split; [exact Hwf|].
  destruct (CalculateRewards_in_range examples.vm_ab examples.ctx0 "a" Hwf)
    as (_ & _ & H & _).
  refine (H (set_Status ValidatorStatusActive
               (set_UpdatedAt (examples.clk0 1%nat)
                  (set_CreatedAt (examples.clk0 0%nat)
                     (examples.node "a" 30000)))) _ _ _).
  - vm_compute. reflexivity.
  - vm_compute. reflexivity.
  - vm_compute. split; reflexivity.
Defined.

(** C9, as stated, fails where the [uint64] product wraps around.  In
    [vm_inactive_big] the deregistered validator "x" holds [2^63] and the
    only active stake is 28846: the exact quotient is 319745269252401574,
    but [2^63 * 1000] wraps to 0 and the reward returned is 0. *)
Lemma CalculateRewards_non_active_wraps_around :
  wf_registry examples.vm_inactive_big
  /\ Status <$> validators examples.vm_inactive_big !! "x"
     = Some ValidatorStatusInactive
  /\ StakeAmount <$> validators examples.vm_inactive_big !! "x"
     = Some 9223372036854775808
  /\ totalActiveStake examples.vm_inactive_big = 28846
  /\ 9223372036854775808 * 1000 / totalActiveStake examples.vm_inactive_big
     = 319745269252401574
  /\ CalculateRewards examples.vm_inactive_big examples.ctx0 "x" = 0.
Proof.
  split; [apply wf_registry_decide; vm_compute; reflexivity|].
  split_and!; vm_compute; reflexivity.
Qed.

(** C9, amended. A registered validator that is not active is still paid
    by the same computation, [CalculateValidatorReward] of its stake, the
    total active stake and the block reward 1000, and that total does not
    count its own stake: it is the total of the registry without it.  Where
    [stake * 1000] and the total active stake are below [2^64], so that
    nothing wraps around, this is [stake * 1000 / total], which is at least
    the block reward as soon as the stake is at least the total.  In
    [vm_slashed] the slashed validator "s" holds 57693 against an active
    stake of 28846 and is paid 2000, twice the block reward. *)
Theorem CalculateRewards_non_active :
  (forall vm ctx nodeID v,
     validators vm !! nodeID = Some v ->
     Status v <> ValidatorStatusActive ->
     let others := {| validators := delete nodeID (validators vm) |} in
     totalActiveStake vm = totalActiveStake others
     /\ GetTotalStake vm ctx = GetTotalStake others ctx
     /\ CalculateRewards vm ctx nodeID
        = CalculateValidatorReward (StakeAmount v) (GetTotalStake others ctx) 1000
     /\ (wf_registry vm ->
         StakeAmount v * 1000 < 2 ^ 64 ->
         0 < totalActiveStake others < 2 ^ 64 ->
         CalculateRewards vm ctx nodeID
         = StakeAmount v * 1000 / totalActiveStake others
         /\ (totalActiveStake others <= StakeAmount v ->
             1000 <= CalculateRewards vm ctx nodeID)))
  /\ (exists v,
        validators examples.vm_slashed !! "s" = Some v
        /\ Status v = ValidatorStatusSlashed
        /\ StakeAmount v = 57693
        /\ totalActiveStake examples.vm_slashed = 28846
        /\ CalculateRewards examples.vm_slashed examples.ctx0 "s" = 2000
        /\ 1000 < CalculateRewards examples.vm_slashed examples.ctx0 "s").
Proof.
  split.
  - intros vm ctx nodeID v Hv Hna others.
    assert (Ht : totalActiveStake vm = totalActiveStake others).
    { rewrite (totalActiveStake_delete vm nodeID v Hv).
      unfold activeStake. rewrite decide_False by done. reflexivity. }
    assert (Hg : GetTotalStake vm ctx = GetTotalStake others ctx)
      by (by rewrite !GetTotalStake_exact, Ht).
    split_and!; [done | done | |].
    + by rewrite (CalculateRewards_registered _ _ _ _ Hv), Hg.
    + intros Hwf Hs Hrange.
      assert (E : CalculateRewards vm ctx nodeID
                  = StakeAmount v * 1000 / totalActiveStake others).
      { rewrite <- Ht. apply CalculateRewards_exact; try done. by rewrite Ht. }
      split; [done|]. intros Hle. rewrite E.
      apply Z.div_le_lower_bound; lia.
  - eexists. split_and!; try (vm_compute; reflexivity).
Qed.

End validator_facts.

(** ** The round engine *)

Module consensus_facts.

Import mach types validator consensus spec mach_facts.

(** *** Voting *)

Lemma castVotes_spec type clk b vs : forall k votes,
  castVotes type clk k vs (Some b) votes
  = Some (votes ++ votesFor type (fun i => clk (k + i)%nat) (BlockData.Hash b) vs).
Proof.
  unfold votesFor.
  induction vs as [|v vs IH]; intros k votes; simpl.
  - by rewrite app_nil_r.
  - rewrite IH, <- app_assoc. simpl. rewrite Nat.add_0_r.
    do 3 f_equal. apply imap_ext. intros i w _. simpl.
    by rewrite Nat.add_succ_r.
Qed.

Lemma votesFor_length type clk hash vs :
  length (votesFor type clk hash vs) = length vs.
Proof. unfold votesFor. apply length_imap. Qed.

Lemma votesFor_lookup type clk hash vs i v :
  vs !! i = Some v ->
  votesFor type clk hash vs !! i
  = Some {| Vote.ValidatorID := ID v; Vote.BlockHash := hash;
            Vote.Timestamp := clk i; Vote.Type_ := type |}.
Proof. intros H. unfold votesFor. by rewrite list_lookup_imap, H. Qed.

Lemma set_Votes_same st : set_Votes (Votes st) st = st.
Proof. by destruct st. Qed.

(** C10. [PreVote] and [PreCommit] return no error, whatever the state and
    whatever block the argument points to (its height plays no part).  They
    append to the vote sequence one vote per validator of the snapshot, in
    order, carrying the validator's ID, the hash of the block and the type
    [pre_vote], respectively [pre_commit], and leave the rest of the state
    as it is.  With an empty snapshot nothing is appended, whatever the
    argument. *)
Theorem PreVote_PreCommit_never_fail clk h st block b :
  h !! block = Some b ->
  let cast type :=
    (Returned None,
     set_Votes (Votes st ++ votesFor type clk (BlockData.Hash b) (Validators st))
               st) in
  PreVote clk h st block = cast VoteTypePreVote
  /\ PreCommit clk h st block = cast VoteTypePreCommit
  /\ (forall type,
        length (votesFor type clk (BlockData.Hash b) (Validators st))
        = length (Validators st)
        /\ (forall i v, Validators st !! i = Some v ->
              votesFor type clk (BlockData.Hash b) (Validators st) !! i
              = Some {| Vote.ValidatorID := ID v;
                        Vote.BlockHash := BlockData.Hash b;
                        Vote.Timestamp := clk i;
                        Vote.Type_ := type |})
        /\ (let st' := (cast type).2 in
            CurrentHeight st' = CurrentHeight st
            /\ CurrentRound st' = CurrentRound st
            /\ Validators st' = Validators st
            /\ ProposerIndex st' = ProposerIndex st
            /\ FinalizedBlocks st' = FinalizedBlocks st))
  /\ (Validators st = [] ->
      forall block',
        PreVote clk h st block' = (Returned None, st)
        /\ PreCommit clk h st block' = (Returned None, st)).
Proof.
  intros Hb cast. split_and!.
  - unfold PreVote. rewrite Hb, castVotes_spec. reflexivity.
  - unfold PreCommit. rewrite Hb, castVotes_spec. reflexivity.
  - intros type. split_and!; try reflexivity.
    + apply votesFor_length.
    + intros i v Hv. by apply votesFor_lookup.
    + simpl. by split_and!.
  - intros Hnil block'. unfold PreVote, PreCommit. rewrite Hnil. simpl.
    by rewrite set_Votes_same.
Qed.

(** The three validators of [engine3] pre-commit to the block at
    location 1. *)
Lemma PreVote_PreCommit_never_fail_witness :
  (PreCommit examples.clk0 examples.heap1 examples.engine3 1%positive).1
  = Returned None
  /\ length (Votes (PreCommit examples.clk0 examples.heap1 examples.engine3
                              1%positive).2) = 3%nat.
Proof.
  assert (Hb : examples.heap1 !! 1%positive
               = Some {| BlockData.Height := 1;
                         BlockData.Hash := "block_1";
                         BlockData.Timestamp := examples.clk0 1%nat;
                         BlockData.Proposer := "val1";
                         BlockData.Transactions :=
                           [defaultBlockTx (examples.clk0 0%nat)];
                         BlockData.Consensus := ConsensusData.zero |})
    by (vm_compute; reflexivity).
  destruct (PreVote_PreCommit_never_fail examples.clk0 examples.heap1
              examples.engine3 1%positive _ Hb) as (_ & Hc & _).
  rewrite Hc. split; reflexivity.
Defined.

(** *** Finalization *)

Lemma matchingPreCommits_le hash votes :
  (matchingPreCommits hash votes <= length votes)%nat.
Proof. unfold matchingPreCommits. apply length_filter. Qed.

Lemma matchingPreCommits_cons hash vote votes :
  matchingPreCommits hash (vote :: votes)
  = if bool_decide (Vote.BlockHash vote = hash)
       && bool_decide (Vote.Type_ vote = VoteTypePreCommit)
    then S (matchingPreCommits hash votes)
    else matchingPreCommits hash votes.
Proof.
  unfold matchingPreCommits. rewrite filter_cons.
  case_decide as Hd; repeat case_bool_decide; simpl; try done.
  - by destruct Hd.
  - by destruct Hd.
  - by destruct Hd.
  - by destruct Hd.
Qed.

(** As long as the counter stays an [int], the loop counts the matching
    pre-commits. *)
Lemma countPreCommits_spec b votes : forall n,
  0 <= n -> n + Z.of_nat (length votes) <= max_int ->
  countPreCommits (Some b) votes n
  = Some (n + Z.of_nat (matchingPreCommits (BlockData.Hash b) votes)).
Proof.
  induction votes as [|vote votes IH]; intros n Hn Hfit.
  - simpl. f_equal. unfold matchingPreCommits. simpl. lia.
  - simpl countPreCommits. rewrite matchingPreCommits_cons.
    simpl length in Hfit.
    destruct (bool_decide (Vote.BlockHash vote = BlockData.Hash b)
              && bool_decide (Vote.Type_ vote = VoteTypePreCommit)).
    + rewrite wrap_int_id by (unfold is_int, max_int in *; lia).
      rewrite IH by lia. f_equal. lia.
    + rewrite IH by lia. done.
Qed.

(** [FinalizeBlock] in terms of the number of matching pre-commits. *)
Lemma FinalizeBlock_unfold clk h st block b :
  h !! block = Some b ->
  tally_fits st ->
  let n := Z.of_nat (matchingPreCommits (BlockData.Hash b) (Votes st)) in
  let total := Z.of_nat (length (Validators st)) in
  FinalizeBlock clk h st block
  = if bool_decide (total = 0) then (Returned (Some ErrNoValidators), h, st)
    else if bool_decide (ConsensusThreshold <= Z.quot (n * 100) total) then
      (Returned None,
       <[block := finalize (clk 0%nat) b]> h,
       {| CurrentHeight := wrap_u64 (CurrentHeight st + 1);
          CurrentRound := CurrentRound st;
          Validators := Validators st;
          ProposerIndex := Z.rem (wrap_int (ProposerIndex st + 1)) total;
          Votes := [];
          FinalizedBlocks := FinalizedBlocks st ++ [block] |})
    else (Returned (Some (ErrNotEnoughPreCommits n total)), h, st).
Proof.
  intros Hb Hfit n total. unfold FinalizeBlock, tally_fits in *.
  pose proof (matchingPreCommits_le (BlockData.Hash b) (Votes st)) as Hle.
  rewrite Hb, countPreCommits_spec by lia.
  rewrite Z.add_0_l. fold n total.
  rewrite (wrap_int_id (n * 100)) by (unfold is_int, max_int in *; lia).
  reflexivity.
Qed.

(** C1. With the block argument pointing to a block and the tally within
    [int], [FinalizeBlock] succeeds exactly when the snapshot is not empty
    and [n * 100 / total >= 67], the division truncating, where [n] is the
    number of outstanding votes for the block's hash of type pre-commit and
    [total] the number of validators.  An empty snapshot gives the
    no-validators error and a percentage below 67 the not-enough-pre-commits
    error; the decision is the one of [types.IsConsensusReached].  With 3
    validators, 2 matching pre-commits give 66 and fail, 3 give 100 and
    succeed. *)
Theorem FinalizeBlock_iff_quorum clk h st block b :
  h !! block = Some b ->
  tally_fits st ->
  let n := Z.of_nat (matchingPreCommits (BlockData.Hash b) (Votes st)) in
  let total := Z.of_nat (length (Validators st)) in
  let o := (FinalizeBlock clk h st block).1.1 in
  (o = Returned None
   <-> total <> 0 /\ ConsensusThreshold <= Z.quot (n * 100) total)
  /\ Z.quot (n * 100) total = n * 100 / total
  /\ (o = Returned None <-> IsConsensusReached n total = true)
  /\ (total = 0 -> o = Returned (Some ErrNoValidators))
  /\ (total <> 0 -> Z.quot (n * 100) total < ConsensusThreshold ->
      o = Returned (Some (ErrNotEnoughPreCommits n total)))
  /\ (total = 3 -> n = 2 ->
      Z.quot (n * 100) total = 66
      /\ o = Returned (Some (ErrNotEnoughPreCommits 2 3)))
  /\ (total = 3 -> n = 3 ->
      Z.quot (n * 100) total = 100 /\ o = Returned None).
Proof.
  intros Hb Hfit n total o. subst o.
  rewrite (FinalizeBlock_unfold _ _ _ _ _ Hb Hfit). fold n total.
  assert (Hn : 0 <= n) by (subst n; lia).
  assert (Ht : 0 <= total) by (subst total; lia).
  split_and!.
  - repeat case_bool_decide; simpl; split; try done;
      intros [? ?]; try done; lia.
  - destruct (decide (total = 0)) as [->|].
    + by destruct (n * 100).
    + apply Z.quot_div_nonneg; lia.
  - unfold IsConsensusReached, tally_fits, max_int in *.
    pose proof (matchingPreCommits_le (BlockData.Hash b) (Votes st)).
    rewrite (wrap_u64_id (n * 100)) by (unfold is_u64; subst n; lia).
    case_bool_decide as Ht0; simpl; [done|].
    rewrite Z.quot_div_nonneg by lia.
    repeat case_bool_decide; simpl; split; done.
  - intros ->. done.
  - intros Hne Hlt. rewrite bool_decide_eq_false_2 by done.
    rewrite bool_decide_eq_false_2 by lia. done.
  - intros -> ->. split; [reflexivity|]. reflexivity.
  - intros -> ->. split; [reflexivity|]. reflexivity.
Qed.

(** [engine3] with two pre-commits for the block at location 1 of [heap1]:
    the percentage is 66 and finalization fails; with three it succeeds. *)
Lemma FinalizeBlock_iff_quorum_witness :
  (FinalizeBlock examples.clk0 examples.heap1 examples.engine3_two 1%positive).1.1
  = Returned (Some (ErrNotEnoughPreCommits 2 3))
  /\ (FinalizeBlock examples.clk0 examples.heap1 examples.engine3_three
                    1%positive).1.1
     = Returned None.
Proof.
  assert (Hb : examples.heap1 !! 1%positive
               = Some {| BlockData.Height := 1;
                         BlockData.Hash := "block_1";
                         BlockData.Timestamp := examples.clk0 1%nat;
                         BlockData.Proposer := "val1";
                         BlockData.Transactions :=
                           [defaultBlockTx (examples.clk0 0%nat)];
                         BlockData.Consensus := ConsensusData.zero |})
    by (vm_compute; reflexivity).
  assert (Hfit : tally_fits examples.engine3_two)
    by (unfold tally_fits, max_int; simpl; lia).
  assert (Hfit' : tally_fits examples.engine3_three)
    by (unfold tally_fits, max_int; simpl; lia).
  destruct (FinalizeBlock_iff_quorum examples.clk0 examples.heap1
              examples.engine3_two 1%positive _ Hb Hfit)
    as (_ & _ & _ & _ & _ & H2 & _).
  destruct (FinalizeBlock_iff_quorum examples.clk0 examples.heap1
              examples.engine3_three 1%positive _ Hb Hfit')
    as (_ & _ & _ & _ & _ & _ & H3).
  split; [apply H2 | apply H3]; reflexivity.
Defined.

Ltac unchanged :=
  right; eexists; split; [|reflexivity]; discriminate.

(** A call of [FinalizeBlock] either finalizes the block it is given, or
    ends otherwise and leaves heap and state as they were. *)
Lemma FinalizeBlock_cases clk h st block :
  (exists b,
     h !! block = Some b
     /\ Validators st <> []
     /\ FinalizeBlock clk h st block
        = (Returned None,
           <[block := finalize (clk 0%nat) b]> h,
           {| CurrentHeight := wrap_u64 (CurrentHeight st + 1);
              CurrentRound := CurrentRound st;
              Validators := Validators st;
              ProposerIndex :=
                Z.rem (wrap_int (ProposerIndex st + 1))
                      (Z.of_nat (length (Validators st)));
              Votes := [];
              FinalizedBlocks := FinalizedBlocks st ++ [block] |}))
  \/ (exists o, o <> Returned None /\ FinalizeBlock clk h st block = (o, h, st)).
Proof.
  unfold FinalizeBlock.
  destruct (countPreCommits (h !! block) (Votes st) 0) as [preCommits|];
    [|unchanged].
  case_bool_decide as Ht; [unchanged|].
  case_bool_decide; [|unchanged].
  destruct (h !! block) as [b|]; [|unchanged].
  left. exists b. split_and!; try done.
  intros Hnil. by rewrite Hnil in Ht.
Qed.

(** C7. When [FinalizeBlock] ends with the not-enough-pre-commits error,
    the heap of blocks and the whole state are as before the call: the vote
    sequence is not cleared, height and proposer index keep their values,
    the finalized history is the same, and the block still has the
    [Finalized] flag it had, so [false] if it was not finalized. *)
Theorem FinalizeBlock_quorum_failure_keeps_state clk h st block p t :
  (FinalizeBlock clk h st block).1.1
  = Returned (Some (ErrNotEnoughPreCommits p t)) ->
  let h' := (FinalizeBlock clk h st block).1.2 in
  let st' := (FinalizeBlock clk h st block).2 in
  h' = h /\ st' = st
  /\ Votes st' = Votes st
  /\ CurrentHeight st' = CurrentHeight st
  /\ ProposerIndex st' = ProposerIndex st
  /\ FinalizedBlocks st' = FinalizedBlocks st
  /\ (forall b, h !! block = Some b ->
        ConsensusData.Finalized (BlockData.Consensus b) = false ->
        exists b', h' !! block = Some b'
                   /\ ConsensusData.Finalized (BlockData.Consensus b') = false).
Proof.
  intros Ho h' st'. subst h' st'.
  destruct (FinalizeBlock_cases clk h st block)
    as [(b & _ & _ & E) | (o & _ & E)]; rewrite E in *; simpl in *.
  - discriminate Ho.
  - split_and!; try done. intros b Hb Hf. by exists b.
Qed.

(** [engine3] is asked to finalize its first proposal before any vote. *)
Lemma FinalizeBlock_quorum_failure_keeps_state_witness :
  (FinalizeBlock examples.clk0 examples.heap1 examples.engine3 1%positive).1.2
  = examples.heap1
  /\ (FinalizeBlock examples.clk0 examples.heap1 examples.engine3 1%positive).2
     = examples.engine3.
Proof.
  pose proof (FinalizeBlock_quorum_failure_keeps_state examples.clk0
                examples.heap1 examples.engine3 1%positive 0 3 eq_refl) as H.
  destruct H as (H1 & H2 & _). split; [exact H1 | exact H2].
Defined.

(** *** Height and proposer across calls *)

Lemma engine_inv_init vals : engine_inv vals (NewInMemoryConsensusEngine vals).
Proof.
  unfold engine_inv. simpl. split_and!; try done; try lia.
Qed.

Lemma exec_not_finalize c h st :
  is_finalize c = false -> exists votes, (exec c h st).2 = set_Votes votes st.
Proof.
  destruct c as [clk|clk block|clk block|clk block]; simpl; [| | |done];
    intros _.
  - exists (Votes st). destruct (ProposeBlock clk h st) as [[? ?] ?].
    simpl. by rewrite set_Votes_same.
  - unfold PreVote. destruct castVotes as [votes|]; simpl.
    + by exists votes.
    + exists (Votes st). by rewrite set_Votes_same.
  - unfold PreCommit. destruct castVotes as [votes|]; simpl.
    + by exists votes.
    + exists (Votes st). by rewrite set_Votes_same.
Qed.

Lemma engine_inv_set_Votes vals votes st :
  engine_inv vals st -> engine_inv vals (set_Votes votes st).
Proof. unfold engine_inv. by destruct st. Qed.

Lemma next_proposer pi total :
  0 <= pi < total -> total <= max_int ->
  Z.rem (wrap_int (pi + 1)) total = (pi + 1) mod total.
Proof.
  intros Hpi Ht.
  rewrite wrap_int_id by (unfold is_int, max_int in *; lia).
  apply Z.rem_mod_nonneg; lia.
Qed.

Lemma exec_inv vals c h st :
  is_slice vals -> engine_inv vals st -> engine_inv vals (exec c h st).2.
Proof.
  intros Hvals Hinv.
  destruct (is_finalize c) eqn:Hc.
  - destruct c as [| | |clk block]; try done. simpl.
    destruct (FinalizeBlock_cases clk h st block)
      as [(b & _ & Hne & E) | (o & _ & E)]; rewrite E; simpl; [|done].
    destruct Hinv as (Hv & Hh & Hp). unfold engine_inv. simpl.
    split; [done | split].
    + rewrite Hh, wrap_u64_add_l, length_app. simpl. f_equal. lia.
    + rewrite Hv in *.
      assert (0 < Z.of_nat (length vals)) by (destruct vals; [done|simpl; lia]).
      rewrite next_proposer by (unfold is_slice in Hvals; lia).
      pose proof (Z.mod_pos_bound (ProposerIndex st + 1)
                    (Z.of_nat (length vals))). lia.
  - destruct (exec_not_finalize c h st Hc) as [votes ->].
    by apply engine_inv_set_Votes.
Qed.

Lemma exec_history_le c h st :
  (length (FinalizedBlocks st) <= length (FinalizedBlocks (exec c h st).2))%nat.
Proof.
  destruct (is_finalize c) eqn:Hc.
  - destruct c as [| | |clk block]; try done. simpl.
    destruct (FinalizeBlock_cases clk h st block)
      as [(b & _ & _ & E) | (o & _ & E)]; rewrite E; simpl; [|done].
    rewrite length_app. lia.
  - destruct (exec_not_finalize c h st Hc) as [votes ->]. by destruct st.
Qed.

Lemma run_inv vals cs : forall h st,
  is_slice vals -> engine_inv vals st -> engine_inv vals (run cs h st).2.
Proof.
  induction cs as [|c cs IH]; intros h st Hvals Hinv; simpl; [done|].
  pose proof (exec_inv vals c h st Hvals Hinv) as Hstep.
  destruct (exec c h st) as [[o h'] st']. by apply IH.
Qed.

Lemma run_history_le cs : forall h st,
  (length (FinalizedBlocks st) <= length (FinalizedBlocks (run cs h st).2))%nat.
Proof.
  induction cs as [|c cs IH]; intros h st; simpl; [done|].
  pose proof (exec_history_le c h st) as Hstep.
  destruct (exec c h st) as [[o h'] st']. simpl in Hstep.
  specialize (IH h' st'). lia.
Qed.

(** While the history is a slice, the height has not wrapped around. *)
Lemma CurrentHeight_exact vals st :
  engine_inv vals st -> is_slice (FinalizedBlocks st) ->
  CurrentHeight st = 1 + Z.of_nat (length (FinalizedBlocks st)).
Proof.
  intros (_ & Hh & _) Hs. rewrite Hh. apply wrap_u64_id.
  unfold is_slice, is_u64, max_int in *. lia.
Qed.

(** C2. An engine is built with height 1.  Along any sequence of calls
    of [ProposeBlock], [PreVote], [PreCommit] and [FinalizeBlock] (the calls
    [cs], then [c], then [cs'], on a snapshot and with a finalized history
    that are slices) the height never decreases.  A successful
    [FinalizeBlock] adds exactly 1 to the height, sets the proposer index
    to [(ProposerIndex + 1) mod] the number of validators, appends the
    block to the finalized history, marks it finalized and empties the vote
    sequence.  Every other call, and every [FinalizeBlock] that does not
    succeed, leaves the height unchanged. *)
Theorem CurrentHeight_never_decreases vals h0 cs c cs' :
  is_slice vals ->
  let st0 := NewInMemoryConsensusEngine vals in
  let before := run cs h0 st0 in
  let step := exec c before.1 before.2 in
  let final := run cs' step.1.2 step.2 in
  is_slice (FinalizedBlocks final.2) ->
  CurrentHeight st0 = 1
  /\ CurrentHeight st0 <= CurrentHeight before.2
  /\ CurrentHeight before.2 <= CurrentHeight step.2
  /\ CurrentHeight step.2 <= CurrentHeight final.2
  /\ (forall clk block,
        c = CallFinalizeBlock clk block ->
        step.1.1 = Returned None ->
        CurrentHeight step.2 = CurrentHeight before.2 + 1
        /\ ProposerIndex step.2
           = (ProposerIndex before.2 + 1) mod Z.of_nat (length vals)
        /\ FinalizedBlocks step.2 = FinalizedBlocks before.2 ++ [block]
        /\ Votes step.2 = []
        /\ exists b,
             before.1 !! block = Some b
             /\ step.1.2 = <[block := finalize (clk 0%nat) b]> before.1
             /\ ConsensusData.Finalized
                  (BlockData.Consensus (finalize (clk 0%nat) b)) = true)
  /\ (is_finalize c = false \/ step.1.1 <> Returned None ->
      CurrentHeight step.2 = CurrentHeight before.2).
Proof.
  intros Hvals st0 before step final Hfinal.
  assert (Ib : engine_inv vals before.2)
    by (apply run_inv; [done | apply engine_inv_init]).
  assert (Is : engine_inv vals step.2) by (by apply exec_inv).
  assert (If : engine_inv vals final.2) by (by apply run_inv).
  pose proof (run_history_le cs h0 st0) as L0. fold before in L0.
  pose proof (exec_history_le c before.1 before.2) as L1. fold step in L1.
  pose proof (run_history_le cs' step.1.2 step.2) as L2. fold final in L2.
  assert (Sb : is_slice (FinalizedBlocks before.2))
    by (unfold is_slice in *; lia).
  assert (Ss : is_slice (FinalizedBlocks step.2))
    by (unfold is_slice in *; lia).
  pose proof (CurrentHeight_exact _ _ Ib Sb) as Eb.
  pose proof (CurrentHeight_exact _ _ Is Ss) as Es.
  pose proof (CurrentHeight_exact _ _ If Hfinal) as Ef.
  split_and!.
  - reflexivity.
  - simpl in *. lia.
  - lia.
  - lia.
  - intros clk block -> Hok. subst step. simpl in *.
    destruct (FinalizeBlock_cases clk before.1 before.2 block)
      as [(b & Hb & Hne & E) | (o & Ho & E)]; rewrite E in *; simpl in *;
      [|done].
    destruct Ib as (Hv & _ & Hp). rewrite Hv in *.
    assert (0 < Z.of_nat (length vals)) by (destruct vals; [done|simpl; lia]).
    split_and!; try done.
    + rewrite Es, Eb, length_app. simpl. lia.
    + apply next_proposer; unfold is_slice in Hvals; lia.
    + by exists b.
  - intros Hor. destruct (is_finalize c) eqn:Hc.
    + destruct Hor as [?|Hfail]; [done|].
      destruct c as [| | |clk block]; try done.
      subst step. simpl in *.
      destruct (FinalizeBlock_cases clk before.1 before.2 block)
        as [(b & Hb & Hne & E) | (o & Ho & E)]; rewrite E in *; simpl in *;
        done.
    + destruct (exec_not_finalize c before.1 before.2 Hc) as [votes Hv].
      subst step. rewrite Hv. by destruct (before.2).
Qed.

(** The first round of the demo: after propose, pre-vote and pre-commit,
    finalizing the block takes [engine3] to height 2 and proposer 1. *)
Lemma CurrentHeight_never_decreases_witness :
  let before := run examples.round1 ∅ examples.engine3 in
  let step := exec (CallFinalizeBlock examples.clk1 1%positive)
                   before.1 before.2 in
  step.1.1 = Returned None
  /\ CurrentHeight step.2 = 2
  /\ ProposerIndex step.2 = 1
  /\ FinalizedBlocks step.2 = [1%positive]
  /\ Votes step.2 = [].
Proof.
  intros before step.
  assert (Hv : is_slice examples.vals3)
    by (unfold is_slice, max_int; simpl; lia).
  assert (Hf : is_slice (FinalizedBlocks (run [] step.1.2 step.2).2))
    by (vm_compute; intros H; discriminate H).
  assert (Hok : step.1.1 = Returned None) by (vm_compute; reflexivity).
  destruct (CurrentHeight_never_decreases examples.vals3 ∅ examples.round1
              (CallFinalizeBlock examples.clk1 1%positive) [] Hv Hf)
    as (_ & _ & _ & _ & H & _).
  destruct (H examples.clk1 1%positive eq_refl Hok) as (H1 & H2 & H3 & H4 & _).
  split_and!; [exact Hok | exact H1 | exact H2 | exact H3 | exact H4].
Defined.

(** *** Block hashes *)

Lemma blockHash_inj x y : blockHash x = blockHash y -> x = y.
Proof.
  unfold blockHash. simpl. intros H. injection H as H.
  by apply (inj pretty).
Qed.

Lemma ProposeBlock_block clk h st l h' :
  ProposeBlock clk h st = (Some l, Returned None, h') ->
  h !! l = None
  /\ exists b, h' = <[l := b]> h
               /\ BlockData.Hash b = blockHash (CurrentHeight st)
               /\ BlockData.Height b = CurrentHeight st.
Proof.
  unfold ProposeBlock. case_bool_decide; [done|].
  destruct (index (Validators st) (ProposerIndex st)) as [proposer|]; [|done].
  intros Hret. injection Hret as <- <-. split.
  - apply not_elem_of_dom, is_fresh.
  - eexists. split_and!; reflexivity.
Qed.

Lemma countPreCommits_hash b1 b2 votes : forall n,
  BlockData.Hash b1 = BlockData.Hash b2 ->
  countPreCommits (Some b1) votes n = countPreCommits (Some b2) votes n.
Proof.
  induction votes as [|vote votes IH]; intros n Hh; simpl; [done|].
  rewrite Hh. by rewrite !IH.
Qed.

(** C4, as stated, fails.  [engine3] proposes a block, at location 1, and
    its three validators pre-commit to it; without finalizing, the engine
    proposes again, at the same height: the second block, at location 2,
    differs from the first (in its timestamp) and bears the same hash
    "block_1".  [FinalizeBlock] of the second block, for which no vote was
    cast, succeeds on the votes of the first. *)
Lemma ProposeBlock_same_height_same_hash :
  let p1 := ProposeBlock examples.clk0 ∅ examples.engine3 in
  let st1 := (PreCommit examples.clk0 p1.2 examples.engine3 1%positive).2 in
  let p2 := ProposeBlock examples.clk1 p1.2 st1 in
  p1.1.1 = Some 1%positive
  /\ p2.1.1 = Some 2%positive
  /\ CurrentHeight st1 = CurrentHeight examples.engine3
  /\ p2.2 !! 1%positive <> p2.2 !! 2%positive
  /\ BlockData.Hash <$> p2.2 !! 1%positive = Some "block_1"
  /\ BlockData.Hash <$> p2.2 !! 2%positive = Some "block_1"
  /\ (FinalizeBlock examples.clk1 p2.2 st1 2%positive).1.1 = Returned None.
Proof.
  split_and!; try (vm_compute; reflexivity).
  vm_compute. intros H. discriminate H.
Qed.

(** C4, amended. The hash of a proposed block is ["block_"] followed by
    the height in decimal, and nothing else enters it: two proposals bear
    the same hash exactly when they are made at the same height.  Two
    blocks proposed at one height are then told apart by no vote: the
    pre-commits counted for the one are counted for the other, and
    [FinalizeBlock] ends the same way on either. *)
Theorem ProposeBlock_hash_by_height clk1 clk2 h1 h2 st1 st2 l1 l2 h1' h2' :
  ProposeBlock clk1 h1 st1 = (Some l1, Returned None, h1') ->
  ProposeBlock clk2 h2 st2 = (Some l2, Returned None, h2') ->
  exists b1 b2,
    h1' !! l1 = Some b1 /\ h2' !! l2 = Some b2
    /\ h1 !! l1 = None /\ h2 !! l2 = None
    /\ BlockData.Hash b1 = "block_" +:+ pretty (CurrentHeight st1)
    /\ BlockData.Hash b2 = "block_" +:+ pretty (CurrentHeight st2)
    /\ (BlockData.Hash b1 = BlockData.Hash b2
        <-> CurrentHeight st1 = CurrentHeight st2)
    /\ (CurrentHeight st1 = CurrentHeight st2 ->
        (forall votes n,
           countPreCommits (Some b1) votes n = countPreCommits (Some b2) votes n)
        /\ (forall clk h st,
              h !! l1 = Some b1 -> h !! l2 = Some b2 ->
              (FinalizeBlock clk h st l1).1.1 = (FinalizeBlock clk h st l2).1.1)).
Proof.
  intros P1 P2.
  apply ProposeBlock_block in P1 as (F1 & b1 & -> & Hh1 & _).
  apply ProposeBlock_block in P2 as (F2 & b2 & -> & Hh2 & _).
  exists b1, b2. rewrite !lookup_insert_eq.
  assert (Hiff : BlockData.Hash b1 = BlockData.Hash b2
                 <-> CurrentHeight st1 = CurrentHeight st2).
  { rewrite Hh1, Hh2. split; [apply blockHash_inj | by intros ->]. }
  split_and!; try done.
  intros Heq. apply Hiff in Heq. split.
  - intros votes n. by apply countPreCommits_hash.
  - intros clk h st Hl1 Hl2. unfold FinalizeBlock. rewrite Hl1, Hl2.
    rewrite (countPreCommits_hash b1 b2 _ _ Heq).
    destruct (countPreCommits (Some b2) (Votes st) 0); [|done].
    repeat case_bool_decide; done.
Qed.

(** The two proposals of [engine3] at height 1. *)
Lemma ProposeBlock_hash_by_height_witness :
  exists b1 b2,
    examples.heap1 !! 1%positive = Some b1
    /\ (ProposeBlock examples.clk1 examples.heap1 examples.engine3).2
         !! 2%positive = Some b2
    /\ BlockData.Hash b1 = "block_1"
    /\ BlockData.Hash b2 = "block_1".
Proof.
  assert (P1 : ProposeBlock examples.clk0 ∅ examples.engine3
               = (Some 1%positive, Returned None, examples.heap1))
    by (vm_compute; reflexivity).
  assert (P2 : ProposeBlock examples.clk1 examples.heap1 examples.engine3
               = (Some 2%positive, Returned None,
                  (ProposeBlock examples.clk1 examples.heap1
                                examples.engine3).2))
    by (vm_compute; reflexivity).
  destruct (ProposeBlock_hash_by_height _ _ _ _ _ _ _ _ _ _ P1 P2)
    as (b1 & b2 & H1 & H2 & _ & _ & H3 & H4 & _).
  exists b1, b2. split_and!; [exact H1 | exact H2 | exact H3 | exact H4].
Defined.

End consensus_facts.

(** ** Package [types]: epochs, quorum, coins, addresses *)

Module types_facts.

Import mach types spec mach_facts.

(** *** Epochs *)

(** X1. For a height below 18446744073709551600, the last multiple of 100
    that is a [uint64], [CalculateNextEpochHeight] is the first epoch
    boundary above the height: a multiple of 100, above the height by at
    most 100 (exactly 100 from a boundary), with no boundary in between,
    and of the next epoch number.  From that height on the product wraps
    around and the result is 84. *)
Theorem CalculateNextEpochHeight_first_boundary h :
  is_u64 h ->
  let n := CalculateNextEpochHeight h in
  (h < 18446744073709551600 ->
   IsEpochBoundary n = true
   /\ h < n <= h + 100
   /\ (forall m, h < m < n -> IsEpochBoundary m = false)
   /\ CalculateEpochNumber n = CalculateEpochNumber h + 1
   /\ (IsEpochBoundary h = true -> n = h + 100))
  /\ (18446744073709551600 <= h -> n = 84).
Proof.
  intros [Hh0 Hh1] n. subst n.
  unfold CalculateNextEpochHeight, CalculateEpochNumber, IsEpochBoundary,
    EpochDuration, wrap_u64 in *.
  pose proof (Z.div_mod h 100 ltac:(lia)) as Hdm.
  pose proof (Z.mod_pos_bound h 100 ltac:(lia)) as Hmb.
  split.
  - intros Hlt.
    assert (Hq : h / 100 + 1 <= 184467440737095516) by lia.
    rewrite (Z.mod_small (h / 100 + 1)) by lia.
    rewrite (Z.mod_small ((h / 100 + 1) * 100)) by lia.
    split_and!.
    + apply bool_decide_eq_true_2. apply Z.mod_mul. lia.
    + lia.
    + lia.
    + intros m Hm. apply bool_decide_eq_false_2. intros Hm0.
      pose proof (Z.div_mod m 100 ltac:(lia)) as Hdm'. lia.
    + rewrite Z.div_mul by lia. reflexivity.
    + intros Hb. apply bool_decide_eq_true_1 in Hb. lia.
  - intros Hge.
    assert (h / 100 = 184467440737095516) as -> by lia.
    reflexivity.
Qed.

(** Height 250 lies in epoch 2; the next epoch starts at 300. *)
Lemma CalculateNextEpochHeight_first_boundary_witness :
  CalculateNextEpochHeight 250 = 300.
Proof.
  assert (Hu : is_u64 250) by (unfold is_u64; lia).
  destruct (CalculateNextEpochHeight_first_boundary 250 Hu) as [H _].
  destruct (H ltac:(lia)) as (Hb & Hr & _).
  apply bool_decide_eq_true_1 in Hb. unfold EpochDuration in Hb.
  pose proof (Z.div_mod (CalculateNextEpochHeight 250) 100 ltac:(lia)). lia.
Defined.

(** *** The quorum test *)

(** X2. Where [votes * 100] does not wrap around, [IsConsensusReached] holds
    exactly when there is a validator and [67 * total <= votes * 100]; so it
    is monotone in the votes, and the least numbers of votes that reach
    consensus among 3, 4, 10 and 100 validators are 3, 3, 7 and 67. *)
Theorem IsConsensusReached_threshold votes total :
  0 <= votes -> votes * 100 < 2 ^ 64 -> 0 <= total ->
  (IsConsensusReached votes total = true
   <-> 0 < total /\ 67 * total <= votes * 100)
  /\ (forall votes', votes' <= votes ->
        0 <= votes' ->
        IsConsensusReached votes' total = true ->
        IsConsensusReached votes total = true)
  /\ (total = 3 -> (IsConsensusReached votes total = true <-> 3 <= votes))
  /\ (total = 4 -> (IsConsensusReached votes total = true <-> 3 <= votes))
  /\ (total = 10 -> (IsConsensusReached votes total = true <-> 7 <= votes))
  /\ (total = 100 -> (IsConsensusReached votes total = true <-> 67 <= votes)).
Proof.
  intros Hv Hfit Ht.
  assert (Hiff : forall v, 0 <= v -> v * 100 < 2 ^ 64 ->
            (IsConsensusReached v total = true
             <-> 0 < total /\ 67 * total <= v * 100)).
  { intros v Hv0 Hv1. unfold IsConsensusReached, ConsensusThreshold.
    rewrite wrap_u64_id by (unfold is_u64; lia).
    case_bool_decide as Ht0; [split; [done | lia]|].
    rewrite bool_decide_eq_true. split.
    - intros Hq. split; [lia|].
      pose proof (Z.mul_div_le (v * 100) total ltac:(lia)). nia.
    - intros [_ Hq]. apply Z.div_le_lower_bound; lia. }
  split_and!.
  - by apply Hiff.
  - intros votes' Hle Hv' Hr. apply Hiff; [done | done |].
    apply Hiff in Hr; [lia | done | lia].
  - intros ->. rewrite Hiff by done. lia.
  - intros ->. rewrite Hiff by done. lia.
  - intros ->. rewrite Hiff by done. lia.
  - intros ->. rewrite Hiff by done. lia.
Qed.

(** Seven votes out of ten reach consensus. *)
Lemma IsConsensusReached_threshold_witness :
  IsConsensusReached 7 10 = true.
Proof.
  destruct (IsConsensusReached_threshold 7 10 ltac:(lia) ltac:(lia) ltac:(lia))
    as (_ & _ & _ & _ & H & _).
  apply H; [reflexivity | lia].
Defined.

(** *** Coin amounts *)

(** X3. For two amounts of one denomination: [Sub] fails exactly when the
    first is the smaller, and otherwise gives the exact difference, to
    which [Add] of the second gives back the first.  [Add] never fails:
    [Sub] of the second from the sum gives back the first when the sum is
    below [2^64]; otherwise the sum has wrapped around to less than the
    second, and [Sub] reports an insufficient balance. *)
Theorem CoinAmount_Add_Sub c other :
  is_u64 (Amount c) -> is_u64 (Amount other) -> Denom c = Denom other ->
  ((CoinAmount_Sub c other).2 = None <-> Amount other <= Amount c)
  /\ (Amount other <= Amount c ->
      Amount (CoinAmount_Sub c other).1 = Amount c - Amount other
      /\ CoinAmount_Add (CoinAmount_Sub c other).1 other = (c, None))
  /\ (CoinAmount_Add c other).2 = None
  /\ (Amount c + Amount other < 2 ^ 64 ->
      Amount (CoinAmount_Add c other).1 = Amount c + Amount other
      /\ CoinAmount_Sub (CoinAmount_Add c other).1 other = (c, None))
  /\ (2 ^ 64 <= Amount c + Amount other ->
      Amount (CoinAmount_Add c other).1 = Amount c + Amount other - 2 ^ 64
      /\ exists a b,
           CoinAmount_Sub (CoinAmount_Add c other).1 other
           = (zeroCoin, Some (ErrInsufficientBalance a b))).
Proof.
  intros [Hc0 Hc1] [Ho0 Ho1] Hd.
  destruct c as [a d], other as [b d']. simpl in *. subst d'.
  unfold CoinAmount_Sub, CoinAmount_Add. simpl.
  rewrite !bool_decide_eq_false_2 by (intros ?; done).
  split_and!.
  - case_bool_decide; simpl; split; (done || lia).
  - intros Hle. rewrite bool_decide_eq_false_2 by lia. simpl.
    rewrite bool_decide_eq_false_2 by (intros ?; done).
    rewrite !wrap_u64_id by (unfold is_u64; lia).
    split; [done|]. do 2 f_equal. lia.
  - done.
  - intros Hfit. rewrite bool_decide_eq_false_2 by (intros ?; done). simpl.
    rewrite wrap_u64_id by (unfold is_u64; lia).
    rewrite bool_decide_eq_false_2 by lia.
    rewrite wrap_u64_id by (unfold is_u64; lia).
    split; [done|]. do 2 f_equal. lia.
  - intros Hover.
    assert (Hw : wrap_u64 (a + b) = a + b - 2 ^ 64).
    { unfold wrap_u64. symmetry. apply Z.mod_unique with 1; lia. }
    rewrite bool_decide_eq_false_2 by (intros ?; done). simpl. rewrite Hw.
    split; [done|]. rewrite bool_decide_eq_true_2 by lia. by do 2 eexists.
Qed.

(** 100ue less 30ue is 70ue, and 70ue plus 30ue is 100ue again. *)
Lemma CoinAmount_Add_Sub_witness :
  CoinAmount_Add (CoinAmount_Sub (NewUECoins 100) (NewUECoins 30)).1
                 (NewUECoins 30)
  = (NewUECoins 100, None).
Proof.
  assert (H1 : is_u64 (Amount (NewUECoins 100))) by (unfold is_u64; simpl; lia).
  assert (H2 : is_u64 (Amount (NewUECoins 30))) by (unfold is_u64; simpl; lia).
  destruct (CoinAmount_Add_Sub (NewUECoins 100) (NewUECoins 30) H1 H2 eq_refl)
    as (_ & H & _).
  apply H. simpl. lia.
Defined.

(** X4. [Div] by 0 gives the zero amount of the same denomination.  For a
    factor other than 0, [Div] after [Mul] by it gives the amount back
    when the product is below [2^64], and [Mul] after [Div] gives an
    amount that is at most the original and short of it by less than the
    factor. *)
Theorem CoinAmount_Mul_Div c factor :
  is_u64 (Amount c) -> is_u64 factor ->
  CoinAmount_Div c 0 = {| Amount := 0; Denom := Denom c |}
  /\ (factor <> 0 -> Amount c * factor < 2 ^ 64 ->
      CoinAmount_Div (CoinAmount_Mul c factor) factor = c)
  /\ (factor <> 0 ->
      let back := CoinAmount_Mul (CoinAmount_Div c factor) factor in
      Denom back = Denom c
      /\ Amount back <= Amount c < Amount back + factor).
Proof.
  intros [Hc0 Hc1] [Hf0 Hf1]. destruct c as [a d]. simpl in *.
  unfold CoinAmount_Div, CoinAmount_Mul. simpl. split_and!.
  - done.
  - intros Hf Hfit. rewrite bool_decide_eq_false_2 by done.
    rewrite wrap_u64_id by (unfold is_u64; nia).
    by rewrite Z.div_mul.
  - intros Hf. rewrite bool_decide_eq_false_2 by done. simpl.
    pose proof (Z.div_mod a factor Hf) as Hdm.
    pose proof (Z.mod_pos_bound a factor ltac:(lia)) as Hmb.
    assert (0 <= a / factor) by (apply Z.div_pos; lia).
    rewrite wrap_u64_id by (unfold is_u64; nia).
    split; [done|]. nia.
Qed.

(** 7ue times 3 is 21ue, and a third of that is 7ue. *)
Lemma CoinAmount_Mul_Div_witness :
  CoinAmount_Div (CoinAmount_Mul (NewUECoins 7) 3) 3 = NewUECoins 7.
Proof.
  assert (H1 : is_u64 (Amount (NewUECoins 7))) by (unfold is_u64; simpl; lia).
  assert (H2 : is_u64 3) by (unfold is_u64; lia).
  destruct (CoinAmount_Mul_Div (NewUECoins 7) 3 H1 H2) as (_ & H & _).
  apply H; simpl; lia.
Defined.

(** *** Decimal amounts as text *)

Lemma string_app_cons x (a b : string) :
  String x a +:+ b = String x (a +:+ b).
Proof. reflexivity. Qed.

Lemma string_app_assoc (a b c : string) : (a +:+ b) +:+ c = a +:+ (b +:+ c).
Proof.
  induction a as [|x a IH]; [done|].
  rewrite !string_app_cons. by f_equal.
Qed.

Lemma list_of_string_app (a b : string) :
  String.list_ascii_of_string (a +:+ b)
  = String.list_ascii_of_string a ++ String.list_ascii_of_string b.
Proof.
  induction a as [|x a IH]; [done|].
  rewrite string_app_cons. simpl. by f_equal.
Qed.

Lemma pretty_N_go_app x : forall s, pretty_N_go x s = pretty_N_go x "" +:+ s.
Proof.
  induction (N.lt_wf_0 x) as [x _ IH]; intros s.
  destruct (decide (x = 0)%N) as [->|Hx]; [done|].
  rewrite !(pretty_N_go_step x) by lia.
  rewrite (IH (x `div` 10)%N) by (apply N.div_lt; lia).
  rewrite (IH (x `div` 10)%N ltac:(apply N.div_lt; lia) (String _ "")).
  by rewrite string_app_assoc.
Qed.

Lemma parseDigits_app a : forall acc b,
  parseDigits acc (a +:+ b)
  = match parseDigits acc a with
    | Some acc' => parseDigits acc' b
    | None => None
    end.
Proof.
  induction a as [|x a IH]; intros acc b; [done|].
  rewrite string_app_cons. simpl.
  destruct (isDigit x); [apply IH | done].
Qed.

Lemma pretty_N_char_digit d :
  (d < 10)%N ->
  isDigit (pretty_N_char d) = true
  /\ (N_of_ascii (pretty_N_char d) - 48 = d)%N.
Proof.
  intros Hd.
  assert (d = 0 \/ d = 1 \/ d = 2 \/ d = 3 \/ d = 4 \/ d = 5 \/ d = 6
          \/ d = 7 \/ d = 8 \/ d = 9)%N as Hcases by lia.
  repeat (destruct Hcases as [->|Hcases]; [by compute|]).
  subst d. by compute.
Qed.

Lemma parseDigits_pretty_go x :
  (0 < x)%N -> parseDigits 0 (pretty_N_go x "") = Some x.
Proof.
  induction (N.lt_wf_0 x) as [x _ IH]; intros Hx.
  rewrite pretty_N_go_step, pretty_N_go_app, parseDigits_app by done.
  destruct (pretty_N_char_digit (x `mod` 10)%N) as [Hd Hv];
    [by apply N.mod_lt|].
  pose proof (N.div_mod x 10 ltac:(done)) as Hdm.
  pose proof (N.div_lt x 10 Hx ltac:(done)) as Hlt.
  revert Hdm Hlt Hd Hv IH.
  generalize (x `div` 10)%N (x `mod` 10)%N. intros q r Hdm Hlt Hd Hv IH.
  destruct (decide (q = 0)%N) as [->|H0].
  - simpl. rewrite Hd, Hv. f_equal. lia.
  - rewrite IH by lia. simpl. rewrite Hd, Hv. f_equal. lia.
Qed.

Lemma parseDigits_pretty (n : N) : parseDigits 0 (pretty n) = Some n.
Proof.
  unfold pretty, pretty_N. case_decide as Hn; [by subst|].
  apply parseDigits_pretty_go. lia.
Qed.

Lemma parseDigits_digits s : forall acc r,
  parseDigits acc s = Some r ->
  Forall (fun c => isDigit c = true) (String.list_ascii_of_string s).
Proof.
  induction s as [|x s IH]; intros acc r; simpl; [by constructor|].
  destruct (isDigit x) eqn:Hx; [|done].
  intros Hr. constructor; [done | by eapply IH].
Qed.

Lemma pretty_Z_N z : 0 <= z -> pretty z = pretty (Z.to_N z).
Proof. intros Hz. destruct z; [done | done | lia]. Qed.

Lemma ParseUint_pretty z : is_u64 z -> ParseUint (pretty z) = Some z.
Proof.
  intros [Hz0 Hz1]. rewrite pretty_Z_N by done.
  pose proof (parseDigits_pretty (Z.to_N z)) as Hp.
  unfold ParseUint. rewrite Hp.
  destruct (pretty (Z.to_N z)) eqn:Hs.
  - simpl in Hp. injection Hp as Hp. rewrite <- Hp in Hs. by compute in Hs.
  - assert ((Z.to_N z <? 2 ^ 64)%N = true) as -> by (apply N.ltb_lt; lia).
    f_equal. lia.
Qed.

Lemma cutAtLastDigit_skip A D :
  Forall (fun c => isDigit c = false) D ->
  forall k, (k <= length D)%nat ->
  cutAtLastDigit (A ++ D) (length A + k) = cutAtLastDigit (A ++ D) (length A).
Proof.
  intros HD. induction k as [|k IH]; intros Hk.
  - by rewrite Nat.add_0_r.
  - rewrite Nat.add_succ_r. simpl.
    destruct (lookup_lt_is_Some_2 D k ltac:(lia)) as [c Hc].
    rewrite lookup_app_r, Nat.add_comm, Nat.add_sub by lia. rewrite Hc.
    rewrite (proj1 (Forall_lookup _ _) HD k c Hc).
    rewrite Nat.add_comm. apply IH. lia.
Qed.

Lemma cutAtLastDigit_hit A c D :
  isDigit c = true ->
  cutAtLastDigit ((A ++ [c]) ++ D) (length (A ++ [c])) = (A ++ [c], D).
Proof.
  intros Hc. rewrite length_app. simpl. rewrite Nat.add_1_r. simpl.
  rewrite <- app_assoc. rewrite lookup_app_r by lia.
  rewrite Nat.sub_diag. simpl. rewrite Hc.
  change (c :: D) with ([c] ++ D). rewrite app_assoc.
  replace (S (length A)) with (length (A ++ [c]))
    by (rewrite length_app; simpl; lia).
  by rewrite take_app_length, drop_app_length.
Qed.

(** What the scan returns when it finds a digit: the bytes cut in two
    after a digit, with no digit among the bytes visited after the cut. *)
Lemma cutAtLastDigit_sound s : forall k a d,
  (k <= length s)%nat ->
  cutAtLastDigit s k = (a, d) -> a <> [] ->
  a ++ d = s
  /\ (length a <= k)%nat
  /\ (exists a' c, a = a' ++ [c] /\ isDigit c = true)
  /\ Forall (fun c => isDigit c = false) (take (k - length a) d).
Proof.
  induction k as [|k IH]; intros a d Hk Hcut Ha; simpl in Hcut.
  - by injection Hcut as <- <-.
  - destruct (lookup_lt_is_Some_2 s k ltac:(lia)) as [c Hc].
    rewrite Hc in Hcut. destruct (isDigit c) eqn:Hd.
    + injection Hcut as <- <-.
      assert (Hlen : length (take (S k) s) = S k)
        by (rewrite length_take; lia).
      split_and!.
      * apply take_drop.
      * lia.
      * exists (take k s), c. split; [|done]. by apply take_S_r.
      * rewrite Hlen, Nat.sub_diag. by rewrite take_0.
    + destruct (IH a d ltac:(lia) Hcut Ha) as (Hs & Hle & Hlast & Hfree).
      split_and!; [done | lia | done |].
      replace (S k - length a)%nat with (S (k - length a)) by lia.
      assert (Hdk : d !! (k - length a)%nat = Some c).
      { rewrite <- Hs in Hc. by rewrite lookup_app_r in Hc by lia. }
      rewrite (take_S_r _ _ _ Hdk). apply Forall_app. split; [done|].
      by repeat constructor.
Qed.

Lemma ParseUint_Some digits z :
  ParseUint digits = Some z ->
  digits <> ""
  /\ is_u64 z
  /\ Forall (fun x => isDigit x = true) (String.list_ascii_of_string digits).
Proof.
  unfold ParseUint. destruct digits as [|c t]; [done|].
  destruct (parseDigits 0 (String c t)) as [n|] eqn:Hn; [|done].
  destruct (n <? 2 ^ 64)%N eqn:Hlt; [|done].
  intros Hz. injection Hz as <-. apply N.ltb_lt in Hlt.
  split_and!; [done | unfold is_u64; lia | by eapply parseDigits_digits].
Qed.

Lemma pretty_ends_in_digit z :
  0 <= z ->
  exists l x,
    String.list_ascii_of_string (pretty z) = l ++ [x] /\ isDigit x = true.
Proof.
  intros Hz. rewrite pretty_Z_N by done.
  pose proof (parseDigits_pretty (Z.to_N z)) as Hp.
  pose proof (parseDigits_digits _ _ _ Hp) as Hdigits.
  assert (Hne : pretty (Z.to_N z) <> "").
  { intros Hnil. rewrite Hnil in Hp. simpl in Hp. injection Hp as Hp.
    rewrite <- Hp in Hnil. by compute in Hnil. }
  destruct (String.list_ascii_of_string (pretty (Z.to_N z))) as [|x l _]
    eqn:Hl using rev_ind.
  - destruct (pretty (Z.to_N z)); [done | done].
  - rewrite Forall_app in Hdigits. destruct Hdigits as [_ Hx].
    inversion_clear Hx. by exists l, x.
Qed.

Lemma ParseCoinAmount_printed a d :
  is_u64 a -> digitless d ->
  ParseCoinAmount (pretty a +:+ d) = ({| Amount := a; Denom := d |}, None).
Proof.
  intros Hu Hd.
  destruct (pretty_ends_in_digit a ltac:(destruct Hu; done)) as (l & x & Hl & Hx).
  unfold ParseCoinAmount.
  rewrite list_of_string_app, Hl, length_app.
  rewrite cutAtLastDigit_skip by (done || lia).
  rewrite cutAtLastDigit_hit by done.
  rewrite bool_decide_eq_false_2 by (by destruct l).
  rewrite <- Hl, !String.string_of_list_ascii_of_string.
  rewrite (ParseUint_pretty a Hu). reflexivity.
Qed.

(** X5. [ParseCoinAmount] reads back what [String] prints: for an amount
    that is a [uint64] and a denomination without decimal digit,
    [ParseCoinAmount(c.String())] is [c], without error. *)
Theorem ParseCoinAmount_String c :
  is_u64 (Amount c) -> digitless (Denom c) ->
  ParseCoinAmount (CoinAmount_String c) = (c, None).
Proof.
  intros Hu Hd. destruct c as [a d]. by apply ParseCoinAmount_printed.
Qed.

(** "28846ue" is read back as 28846 of denomination "ue". *)
Lemma ParseCoinAmount_String_witness :
  ParseCoinAmount "28846ue" = (NewUECoins 28846, None).
Proof.
  apply (ParseCoinAmount_String (NewUECoins 28846)).
  - unfold is_u64. simpl. lia.
  - unfold digitless. simpl. repeat constructor.
Defined.

(** X6. What [ParseCoinAmount] accepts: when it returns no error, the
    text is a non-empty run of decimal digits, whose value is the amount, a
    [uint64], followed by the denomination, which holds no decimal digit;
    printing the result and reading it again gives the same result.  A text
    without any decimal digit, the empty one included, is rejected as of
    invalid format. *)
Theorem ParseCoinAmount_accepts s :
  (forall c,
     ParseCoinAmount s = (c, None) ->
     digitless (Denom c)
     /\ is_u64 (Amount c)
     /\ (exists digits,
           s = digits +:+ Denom c
           /\ digits <> ""
           /\ Forall (fun x => isDigit x = true)
                     (String.list_ascii_of_string digits)
           /\ ParseUint digits = Some (Amount c))
     /\ ParseCoinAmount (CoinAmount_String c) = (c, None))
  /\ (digitless s ->
      ParseCoinAmount s = (zeroCoin, Some (ErrInvalidCoinFormat s))).
Proof.
  split.
  - intros c. unfold ParseCoinAmount.
    destruct (cutAtLastDigit _ _) as [a d] eqn:Hcut.
    case_bool_decide as Ha; [done|].
    destruct (ParseUint (String.string_of_list_ascii a)) as [amount|] eqn:Hp;
      [|done].
    intros Hc. injection Hc as <-. simpl.
    destruct (cutAtLastDigit_sound _ _ _ _ (Nat.le_refl _) Hcut Ha)
      as (Hs & Hle & _ & Hfree).
    assert (Hlen : length d
                   = (length (String.list_ascii_of_string s) - length a)%nat).
    { rewrite <- Hs, length_app. lia. }
    rewrite <- Hlen, firstn_all in Hfree.
    assert (Hdl : digitless (String.string_of_list_ascii d)).
    { unfold digitless. by rewrite String.list_ascii_of_string_of_list_ascii. }
    destruct (ParseUint_Some _ _ Hp) as (Hne & Hu & Hdigits).
    split_and!; [done | done | |].
    + exists (String.string_of_list_ascii a). split_and!; [|done|done|done].
      rewrite <- (String.string_of_list_ascii_of_string s), <- Hs.
      clear. induction a as [|x a IH]; [done|].
      simpl. rewrite string_app_cons. by f_equal.
    + by apply ParseCoinAmount_printed.
  - intros Hd. unfold ParseCoinAmount, digitless in *.
    pose proof (cutAtLastDigit_skip [] _ Hd _ (Nat.le_refl _)) as Hskip.
    simpl in Hskip. rewrite Hskip. reflexivity.
Qed.

(** *** Addresses as text *)

Lemma hex_byte b :
  fromHexChar (hexDigit (Byte.to_N b / 16)) = Some (Byte.to_N b / 16)%N
  /\ fromHexChar (hexDigit (Byte.to_N b mod 16)) = Some (Byte.to_N b mod 16)%N
  /\ Byte.of_N (Byte.to_N b / 16 * 16 + Byte.to_N b mod 16) = Some b
  /\ hexDigit (Byte.to_N b mod 16) <> "x"%char.
Proof. destruct b; by vm_compute. Qed.

Lemma DecodeString_EncodeToString src :
  DecodeString (EncodeToString src) = Some src.
Proof.
  induction src as [|b src IH]; [done|]. simpl.
  destruct (hex_byte b) as (-> & -> & -> & _). by rewrite IH.
Qed.

Lemma TrimPrefix0x_EncodeToString src :
  TrimPrefix0x (EncodeToString src) = EncodeToString src.
Proof.
  destruct src as [|b src]; [done|]. simpl.
  destruct (hex_byte b) as (_ & _ & _ & Hx).
  unfold TrimPrefix0x.
  destruct (hexDigit (Byte.to_N b / 16)) as [[] [] [] [] [] [] [] []]; try done.
  destruct (hexDigit (Byte.to_N b mod 16)) as [[] [] [] [] [] [] [] []];
    done.
Qed.

(** X7. [NewAddress] reads back what [String] prints: for an address of
    20 bytes, [NewAddress(a.String())] is [a], without error, and so is
    [NewAddress] of the same digits without the "0x" in front.  The digits
    of any other number of bytes are rejected with the invalid-length
    error, which carries that number, and the zero address. *)
Theorem NewAddress_String a :
  (length a = 20%nat ->
   NewAddress (Address_String a) = (a, None)
   /\ NewAddress (EncodeToString a) = (a, None))
  /\ (length a <> 20%nat ->
      NewAddress (Address_String a)
      = (zeroAddress, Some (ErrInvalidAddressLength 20 (Z.of_nat (length a))))).
Proof.
  unfold NewAddress, Address_String.
  change (TrimPrefix0x ("0x" +:+ EncodeToString a)) with (EncodeToString a).
  rewrite TrimPrefix0x_EncodeToString, DecodeString_EncodeToString.
  split; intros Hlen.
  - by rewrite bool_decide_eq_false_2 by (intros ?; done).
  - by rewrite bool_decide_eq_true_2.
Qed.

(** *** Transactions *)

Lemma Address_IsZero_spec a :
  Address_IsZero a = true <-> a = replicate (length a) Byte.x00.
Proof.
  unfold Address_IsZero. induction a as [|b a IH]; simpl; [done|].
  rewrite andb_true_iff, IH. split.
  - intros [Hb <-]. f_equal. by destruct b.
  - intros Ha. injection Ha as -> Ha. by split.
Qed.

(** X8. [Validate] accepts a transaction exactly when sender and
    recipient have a byte other than 0 and amount, gas and gas price are
    not 0; the first of these five conditions that fails, in this order,
    decides the error. *)
Theorem Transaction_Validate_accepts tx :
  (Transaction_Validate tx = None
   <-> Transaction.From tx <> replicate (length (Transaction.From tx)) Byte.x00
       /\ Transaction.To tx <> replicate (length (Transaction.To tx)) Byte.x00
       /\ Amount (Transaction.Amount tx) <> 0
       /\ Transaction.Gas tx <> 0
       /\ Transaction.GasPrice tx <> 0)
  /\ (Transaction_Validate tx = Some ErrGasPriceZero ->
      Transaction.Gas tx <> 0 /\ Amount (Transaction.Amount tx) <> 0)
  /\ (Transaction_Validate tx = Some ErrToZero ->
      Transaction.From tx <> replicate (length (Transaction.From tx)) Byte.x00).
Proof.
  unfold Transaction_Validate, CoinAmount_IsZero.
  pose proof (Address_IsZero_spec (Transaction.From tx)) as HF.
  pose proof (Address_IsZero_spec (Transaction.To tx)) as HT.
  destruct (Address_IsZero (Transaction.From tx)) eqn:EF.
  { split_and!; [split|..]; try done.
    intros (Hne & _). destruct Hne. by apply HF. }
  assert (HF' : Transaction.From tx
                <> replicate (length (Transaction.From tx)) Byte.x00)
    by (intros E; apply HF in E; done).
  destruct (Address_IsZero (Transaction.To tx)) eqn:ET.
  { split_and!; [split|..]; try done.
    intros (_ & Hne & _). destruct Hne. by apply HT. }
  assert (HT' : Transaction.To tx
                <> replicate (length (Transaction.To tx)) Byte.x00)
    by (intros E; apply HT in E; done).
  case_bool_decide as HA.
  { split_and!; [split|..]; try done. intros (_ & _ & Hne & _). done. }
  case_bool_decide as HG.
  { split_and!; [split|..]; try done. intros (_ & _ & _ & Hne & _). done. }
  case_bool_decide as HP.
  { split_and!; [split|..]; try done. intros (_ & _ & _ & _ & Hne). done. }
  split_and!; [split|..]; done.
Qed.

End types_facts.

(** ** The registry across calls *)

Module registry_facts.

Import mach types validator spec mach_facts validator_facts.

(** *** What every call keeps *)

(** Each mutating method returns the map it was given, or that map with
    one entry stored under the key it names. *)
Lemma apply_op_shape o vm :
  (apply_op o vm).2 = vm
  \/ exists k v, (apply_op o vm).2 = {| validators := <[k := v]> (validators vm) |}.
Proof.
  destruct o as [clk ctx node|clk ctx nodeID|clk ctx node|clk ctx nodeID reason];
    simpl.
  - unfold RegisterNode. destruct (negb _); [by left|].
    destruct (validators vm !! ID node); [by left|]. right. by do 2 eexists.
  - unfold DeregisterNode. destruct (validators vm !! nodeID); [|by left].
    right. by do 2 eexists.
  - unfold UpdateValidator. destruct (validators vm !! ID node); [|by left].
    right. by do 2 eexists.
  - unfold SlashNode, GetValidator.
    destruct (validators vm !! nodeID); [|by left]. right. by do 2 eexists.
Qed.

Lemma apply_op_keeps o vm id :
  is_Some (validators vm !! id) ->
  is_Some (validators (apply_op o vm).2 !! id).
Proof.
  intros Hid. destruct (apply_op_shape o vm) as [-> | (k & v & ->)]; [done|].
  simpl. apply lookup_insert_is_Some. destruct (decide (k = id)); auto.
Qed.

Lemma apply_ops_keeps os : forall vm id,
  is_Some (validators vm !! id) ->
  is_Some (validators (apply_ops os vm) !! id).
Proof.
  unfold apply_ops. induction os as [|o os IH]; intros vm id Hid; simpl; [done|].
  apply IH. by apply apply_op_keeps.
Qed.

(** X9. No call removes a validator, and none makes its ID free again:
    after any sequence of [RegisterNode], [DeregisterNode],
    [UpdateValidator] and [SlashNode] calls a registered ID is still
    registered, and [RegisterNode] of a node with that ID fails and leaves
    the manager as it is, whatever the stake offered and whether the
    validator was deregistered or slashed in between. *)
Theorem registered_forever os vm id :
  is_Some (validators vm !! id) ->
  is_Some (validators (apply_ops os vm) !! id)
  /\ forall clk ctx node,
       ID node = id ->
       let r := RegisterNode clk (apply_ops os vm) ctx node in
       (r.1 = Some (ErrAlreadyExists id)
        \/ r.1 = Some (ErrInsufficientStake MinValidatorStake (StakeAmount node)))
       /\ r.2 = apply_ops os vm.
Proof.
  intros Hid.
  pose proof (apply_ops_keeps os vm id Hid) as [v Hv].
  split; [by exists v|].
  intros clk ctx node <-. unfold RegisterNode.
  destruct (negb _); simpl; [by auto|]. rewrite Hv. simpl. by auto.
Qed.

(** A validator registered, slashed to 0 and deregistered cannot register
    again with a fresh stake. *)
Lemma registered_forever_witness :
  (RegisterNode examples.clk0
     (apply_ops [OpSlashNode examples.clk0 examples.ctx0 "v"
                             SlashReasonDoubleSigning;
                 OpDeregisterNode examples.clk0 examples.ctx0 "v"]
                examples.vm_min)
     examples.ctx0 (examples.node "v" 30000)).1
  = Some (ErrAlreadyExists "v").
Proof.
  assert (Hv : is_Some (validators examples.vm_min !! "v"))
    by (vm_compute; eexists; reflexivity).
  destruct (registered_forever
              [OpSlashNode examples.clk0 examples.ctx0 "v"
                           SlashReasonDoubleSigning;
               OpDeregisterNode examples.clk0 examples.ctx0 "v"]
              examples.vm_min "v" Hv) as [_ H].
  destruct (H examples.clk0 examples.ctx0 (examples.node "v" 30000) eq_refl)
    as [[Hr|Hr] _]; [exact Hr|].
  vm_compute in Hr. discriminate Hr.
Defined.

Lemma apply_op_keyed o vm : keyed vm -> keyed (apply_op o vm).2.
Proof.
  unfold keyed. intros Hk.
  destruct o as [clk ctx node|clk ctx nodeID|clk ctx node|clk ctx nodeID reason];
    simpl.
  - unfold RegisterNode. destruct (negb _); [done|].
    destruct (validators vm !! ID node); [done|]. simpl.
    by apply map_Forall_insert_2.
  - unfold DeregisterNode.
    destruct (validators vm !! nodeID) as [v|] eqn:Hv; [|done]. simpl.
    apply map_Forall_insert_2; [|done]. simpl. by apply (Hk nodeID v).
  - unfold UpdateValidator. destruct (validators vm !! ID node); [|done].
    simpl. by apply map_Forall_insert_2.
  - unfold SlashNode, GetValidator.
    destruct (validators vm !! nodeID) as [v|] eqn:Hv; [|done]. simpl.
    apply map_Forall_insert_2; [|done].
    case_bool_decide; simpl; by apply (Hk nodeID v).
Qed.

Lemma apply_ops_keyed os : forall vm, keyed vm -> keyed (apply_ops os vm).
Proof.
  unfold apply_ops. induction os as [|o os IH]; intros vm Hvm; simpl; [done|].
  apply IH. by apply apply_op_keyed.
Qed.

Lemma NewValidatorManager_keyed : keyed NewValidatorManager.
Proof. unfold keyed. simpl. apply map_Forall_empty. Qed.

(** X10. In every manager reached from a new one by the mutating methods,
    each validator is stored under its own ID: [GetValidator(id)] never
    returns a node of another ID. *)
Theorem registry_keyed_by_ID os :
  keyed (apply_ops os NewValidatorManager)
  /\ forall ctx id,
       (GetValidator (apply_ops os NewValidatorManager) ctx id).2 = None ->
       ID (GetValidator (apply_ops os NewValidatorManager) ctx id).1 = id.
Proof.
  assert (Hnew : keyed (apply_ops os NewValidatorManager))
    by apply apply_ops_keyed, NewValidatorManager_keyed.
  split; [done|].
  intros ctx id. unfold GetValidator.
  destruct (validators _ !! id) as [v|] eqn:Hv; [|done].
  intros _. simpl. by apply (Hnew id v).
Qed.

(** *** Stakes across calls *)

Lemma calculateSlashAmount_tenth stake reason :
  0 <= stake -> stake / 10 <= calculateSlashAmount stake reason.
Proof.
  intros Hs. unfold calculateSlashAmount.
  repeat case_decide; try lia; apply Z.div_le_compat_l; lia.
Qed.

(** The stake [SlashNode] leaves of a [uint64] stake. *)
Lemma slashed_stake stake reason left stake' :
  is_u64 stake ->
  left = wrap_u64 (stake - calculateSlashAmount stake reason) ->
  stake' = (if bool_decide (left < MinValidatorStake) then 0 else left) ->
  is_u64 stake'
  /\ (stake' = 0 \/ MinValidatorStake <= stake')
  /\ stake' <= stake
  /\ (0 < stake -> stake' < stake).
Proof.
  intros [Hs0 Hs1] Hleft ->.
  pose proof (calculateSlashAmount_bounds stake reason Hs0) as Hb.
  pose proof (calculateSlashAmount_tenth stake reason Hs0) as Ht.
  assert (Hl : left = stake - calculateSlashAmount stake reason)
    by (rewrite Hleft; apply wrap_u64_id; unfold is_u64; lia).
  clear Hleft. unfold MinValidatorStake, is_u64 in *.
  case_bool_decide; split_and!; try lia.
  intros Hpos. assert (1 <= stake / 10) by (apply Z.div_le_lower_bound; lia).
  lia.
Qed.

Lemma apply_op_stakes_sound o vm :
  op_typed o -> is_update o = false ->
  stakes_sound vm -> stakes_sound (apply_op o vm).2.
Proof.
  unfold stakes_sound. intros Hty Hup Hs.
  destruct o as [clk ctx node|clk ctx nodeID|clk ctx node|clk ctx nodeID reason];
    simpl in *; [| |done|].
  - unfold RegisterNode, IsValidatorEligible.
    case_bool_decide as Hmin; simpl; [|done].
    destruct (validators vm !! ID node); [done|]. simpl.
    apply map_Forall_insert_2; [|done]. simpl. by auto.
  - unfold DeregisterNode.
    destruct (validators vm !! nodeID) as [v|] eqn:Hv; [|done]. simpl.
    apply map_Forall_insert_2; [|done]. simpl.
    destruct (Hs nodeID v Hv) as (Hu & H0 & _). split_and!; done.
  - rewrite (surjective_pairing (SlashNode clk vm ctx nodeID reason)).
    unfold SlashNode, GetValidator.
    destruct (validators vm !! nodeID) as [v|] eqn:Hv; [|done]. simpl.
    apply map_Forall_insert_2; [|done].
    destruct (Hs nodeID v Hv) as (Hu & _ & _).
    destruct (slashed_stake (StakeAmount v) reason _ _ Hu eq_refl eq_refl)
      as (Hu' & H0' & _).
    revert Hu' H0'. case_bool_decide; simpl; intros Hu' H0'; split_and!; done.
Qed.

(** X11. As long as [UpdateValidator] is not called, every manager reached
    from a new one by [RegisterNode] (of [uint64] stakes), [DeregisterNode]
    and [SlashNode] holds only stakes that are 0 or at least
    [MinValidatorStake], and every validator with status [active] holds at
    least the minimum. *)
Theorem stakes_sound_without_update os :
  Forall op_typed os ->
  Forall (fun o => is_update o = false) os ->
  stakes_sound (apply_ops os NewValidatorManager)
  /\ wf_registry (apply_ops os NewValidatorManager).
Proof.
  intros Hty Hup.
  assert (Hs : forall vm, stakes_sound vm -> stakes_sound (apply_ops os vm)).
  { unfold apply_ops. induction os as [|o os IH]; intros vm Hvm; simpl; [done|].
    inversion_clear Hty. inversion_clear Hup.
    apply IH; [done | done |]. by apply apply_op_stakes_sound. }
  assert (Hnew : stakes_sound (apply_ops os NewValidatorManager)).
  { apply Hs. unfold stakes_sound. simpl. apply map_Forall_empty. }
  split; [done|]. intros k v Hv. by destruct (Hnew k v Hv).
Qed.

(** Register two validators, slash one, deregister the other. *)
Lemma stakes_sound_without_update_witness :
  stakes_sound
    (apply_ops [OpRegisterNode examples.clk0 examples.ctx0 (examples.node "a" 30000);
                OpRegisterNode examples.clk0 examples.ctx0 (examples.node "b" 60000);
                OpSlashNode examples.clk0 examples.ctx0 "a" SlashReasonDowntime;
                OpDeregisterNode examples.clk0 examples.ctx0 "b"]
               NewValidatorManager).
Proof.
  apply stakes_sound_without_update.
  - repeat constructor; unfold is_u64; simpl; lia.
  - repeat constructor.
Defined.

(** *** The total active stake across calls *)

Lemma totalActiveStake_replace vm i x y :
  validators vm !! i = Some x ->
  totalActiveStake {| validators := <[i := y]> (validators vm) |}
  = totalActiveStake vm - activeStake x + activeStake y.
Proof.
  intros Hx. rewrite (totalActiveStake_delete vm i x Hx).
  rewrite (totalActiveStake_delete {| validators := <[i := y]> (validators vm) |}
             i y) by apply lookup_insert_eq.
  simpl. rewrite delete_insert_eq. lia.
Qed.

Lemma totalActiveStake_add vm i y :
  validators vm !! i = None ->
  totalActiveStake {| validators := <[i := y]> (validators vm) |}
  = totalActiveStake vm + activeStake y.
Proof.
  intros Hx.
  rewrite (totalActiveStake_delete {| validators := <[i := y]> (validators vm) |}
             i y) by apply lookup_insert_eq.
  simpl. rewrite delete_insert_eq, delete_id by done. destruct vm. simpl. lia.
Qed.

Lemma elem_of_GetActiveValidators w vm ctx :
  w ∈ GetActiveValidators vm ctx
  <-> Status w = ValidatorStatusActive /\ exists k, validators vm !! k = Some w.
Proof.
  unfold GetActiveValidators. rewrite list_elem_of_filter, list_elem_of_fmap.
  split.
  - intros [Hs ([k v] & -> & Hv)]. apply elem_of_map_to_list in Hv.
    split; [done|]. by exists k.
  - intros [Hs [k Hv]]. split; [done|]. exists (k, w). split; [done|].
    by apply elem_of_map_to_list.
Qed.

(** After the entry at [i] is replaced by a node that is not active, no
    active validator bears the ID [i]. *)
Lemma replaced_not_active vm ctx i x y w :
  keyed vm -> validators vm !! i = Some x ->
  Status y <> ValidatorStatusActive ->
  w ∈ GetActiveValidators {| validators := <[i := y]> (validators vm) |} ctx ->
  ID w <> i /\ w ∈ GetActiveValidators vm ctx.
Proof.
  intros Hk Hx Hy Hw.
  apply elem_of_GetActiveValidators in Hw as [Hs [k Hkw]]. simpl in Hkw.
  apply lookup_insert_Some in Hkw as [[-> ->] | [Hne Hkw]]; [done|].
  split.
  - rewrite (Hk k w Hkw). done.
  - apply elem_of_GetActiveValidators. split; [done|]. by exists k.
Qed.

(** X12. [DeregisterNode] of an unknown ID returns the not-found error
    and the manager as it is.  Of a registered validator it keeps the
    entry, with status [inactive] and the stake it had; the total active
    stake drops by exactly what the validator contributed to it, and no
    validator of that ID is listed by [GetActiveValidators] any more. *)
Theorem DeregisterNode_effect clk vm ctx nodeID :
  (validators vm !! nodeID = None ->
   DeregisterNode clk vm ctx nodeID = (Some (ErrNotFound nodeID), vm))
  /\ (forall v,
        validators vm !! nodeID = Some v ->
        let r := DeregisterNode clk vm ctx nodeID in
        r.1 = None
        /\ (exists v',
              validators r.2 = <[nodeID := v']> (validators vm)
              /\ Status v' = ValidatorStatusInactive
              /\ StakeAmount v' = StakeAmount v
              /\ ID v' = ID v)
        /\ size (validators r.2) = size (validators vm)
        /\ totalActiveStake r.2 = totalActiveStake vm - activeStake v
        /\ (keyed vm ->
            forall w, w ∈ GetActiveValidators r.2 ctx ->
                      ID w <> nodeID /\ w ∈ GetActiveValidators vm ctx)).
Proof.
  unfold DeregisterNode. split.
  - by intros ->.
  - intros v Hv. rewrite Hv. simpl. split_and!.
    + done.
    + eexists. split_and!; reflexivity.
    + by apply map_size_insert_Some.
    + rewrite (totalActiveStake_replace vm nodeID v _ Hv).
      unfold activeStake at 2. simpl. lia.
    + intros Hk w Hw.
      eapply (replaced_not_active vm ctx nodeID v _ w Hk Hv); [|exact Hw].
      simpl. discriminate.
Qed.

(** X13. [SlashNode] of a registered validator with a [uint64] stake never
    raises the stake and strictly lowers a stake that is not 0; the total
    active stake drops by exactly what the validator contributed to it, and
    no validator of that ID is listed by [GetActiveValidators] any more. *)
Theorem SlashNode_reduces clk vm ctx nodeID reason v :
  validators vm !! nodeID = Some v ->
  is_u64 (StakeAmount v) ->
  let r := SlashNode clk vm ctx nodeID reason in
  (exists v',
     validators r.2 !! nodeID = Some v'
     /\ StakeAmount v' <= StakeAmount v
     /\ (0 < StakeAmount v -> StakeAmount v' < StakeAmount v))
  /\ totalActiveStake r.2 = totalActiveStake vm - activeStake v
  /\ (keyed vm ->
      forall w, w ∈ GetActiveValidators r.2 ctx ->
                ID w <> nodeID /\ w ∈ GetActiveValidators vm ctx).
Proof.
  intros Hv Hu r. subst r. rewrite (SlashNode_registered _ _ _ _ _ _ Hv).
  cbv zeta. simpl.
  destruct (slashed_stake (StakeAmount v) reason _ _ Hu eq_refl eq_refl)
    as (_ & _ & Hle & Hlt).
  split_and!.
  - eexists. split; [apply lookup_insert_eq|].
    revert Hle Hlt. case_bool_decide; simpl; intros Hle Hlt; done.
  - rewrite (totalActiveStake_replace vm nodeID v _ Hv).
    unfold activeStake at 2.
    rewrite decide_False by (case_bool_decide; done). lia.
  - intros Hk w Hw.
    eapply (replaced_not_active vm ctx nodeID v _ w Hk Hv); [|exact Hw].
    case_bool_decide; simpl; discriminate.
Qed.

(** A validator holding 60000 is slashed for an invalid block: it keeps
    45000. *)
Lemma SlashNode_reduces_witness :
  exists v',
    validators (SlashNode examples.clk0 examples.vm_ab examples.ctx0 "b"
                          SlashReasonInvalidBlock).2 !! "b" = Some v'
    /\ StakeAmount v' < 60000.
Proof.
  assert (Hv : validators examples.vm_ab !! "b"
               = Some (set_Status ValidatorStatusActive
                         (set_UpdatedAt (examples.clk0 1%nat)
                            (set_CreatedAt (examples.clk0 0%nat)
                               (examples.node "b" 60000)))))
    by (vm_compute; reflexivity).
  assert (Hu : is_u64 60000) by (unfold is_u64; lia).
  destruct (SlashNode_reduces examples.clk0 examples.vm_ab examples.ctx0 "b"
              SlashReasonInvalidBlock _ Hv Hu) as ((v' & Hl & _ & Hlt) & _).
  exists v'. split; [exact Hl|]. apply Hlt. simpl. lia.
Defined.

(** X14. [RegisterNode], when it succeeds, raises the total active stake
    by exactly the stake registered and the number of active validators by
    one; [GetTotalStake] becomes the sum of its former value and the stake,
    modulo [2^64]. *)
Theorem RegisterNode_totals clk vm ctx node :
  MinValidatorStake <= StakeAmount node ->
  validators vm !! ID node = None ->
  let r := RegisterNode clk vm ctx node in
  r.1 = None
  /\ totalActiveStake r.2 = totalActiveStake vm + StakeAmount node
  /\ GetValidatorCount r.2 ctx = GetValidatorCount vm ctx + 1
  /\ GetTotalStake r.2 ctx = wrap_u64 (GetTotalStake vm ctx + StakeAmount node).
Proof.
  intros Hmin Hnew. unfold RegisterNode, IsValidatorEligible.
  rewrite bool_decide_eq_true_2 by done. simpl. rewrite Hnew. simpl.
  split_and!.
  - done.
  - rewrite totalActiveStake_add by done. unfold activeStake. simpl. done.
  - unfold GetValidatorCount, GetActiveValidators. simpl.
    rewrite (Permutation_length
               (filter_Permutation _ _ _
                  (fmap_Permutation snd _ _
                     (map_to_list_insert (validators vm) (ID node) _ Hnew)))).
    rewrite fmap_cons, filter_cons. simpl. lia.
  - rewrite !GetTotalStake_exact. rewrite totalActiveStake_add by done.
    unfold activeStake. simpl.
    unfold wrap_u64. by rewrite Zplus_mod_idemp_l.
Qed.

(** A third validator joins [vm_ab]: the total goes from 90000 to 120000. *)
Lemma RegisterNode_totals_witness :
  totalActiveStake (RegisterNode examples.clk0 examples.vm_ab examples.ctx0
                                 (examples.node "c" 30000)).2
  = totalActiveStake examples.vm_ab + 30000.
Proof.
  destruct (RegisterNode_totals examples.clk0 examples.vm_ab examples.ctx0
              (examples.node "c" 30000)) as (_ & H & _).
  - unfold MinValidatorStake. simpl. lia.
  - vm_compute. reflexivity.
  - exact H.
Defined.

(** X15. [UpdateValidator] of an unknown ID returns the not-found error
    and the manager as it is.  For a registered ID it stores the node it is
    given, whatever the stake and the status of that node, with a new
    update time: [GetValidator] then returns exactly that node, no other
    entry changes and no ID is added. *)
Theorem UpdateValidator_GetValidator clk vm ctx node :
  (validators vm !! ID node = None ->
   UpdateValidator clk vm ctx node = (Some (ErrNotFound (ID node)), vm))
  /\ (is_Some (validators vm !! ID node) ->
      let r := UpdateValidator clk vm ctx node in
      r.1 = None
      /\ GetValidator r.2 ctx (ID node) = (set_UpdatedAt (clk 0%nat) node, None)
      /\ (forall j, j <> ID node ->
            GetValidator r.2 ctx j = GetValidator vm ctx j)
      /\ dom (validators r.2) = dom (validators vm)).
Proof.
  unfold UpdateValidator. split.
  - by intros ->.
  - intros [old Hold]. rewrite Hold. simpl. split_and!.
    + done.
    + unfold GetValidator. simpl. by rewrite lookup_insert_eq.
    + intros j Hj. unfold GetValidator. simpl.
      by rewrite lookup_insert_ne.
    + apply dom_insert_lookup_L. by exists old.
Qed.

(** *** The reward budget *)

Lemma sumZ_fmap_ext {A} (f g : A -> Z) (l : list A) :
  (forall x, x ∈ l -> f x = g x) -> sumZ (f <$> l) = sumZ (g <$> l).
Proof.
  induction l as [|x l IH]; intros Hfg; [done|].
  rewrite !fmap_cons. simpl. rewrite (Hfg x) by constructor.
  rewrite IH; [done|]. intros y Hy. apply Hfg. by constructor.
Qed.

(** Quotients of non-negative shares of a total add up to at most the
    quotient of the whole, and fall short of it by less than one per
    share. *)
Lemma sumZ_quotients T (l : list Z) :
  0 < T -> Forall (fun s => 0 <= s) l ->
  T * sumZ ((fun s => s * 1000 / T) <$> l) <= 1000 * sumZ l
  /\ 1000 * sumZ l - T * Z.of_nat (length l)
     <= T * sumZ ((fun s => s * 1000 / T) <$> l) - Z.of_nat (length l).
Proof.
  intros HT. induction 1 as [|s l Hs _ IH]; [simpl; lia|].
  rewrite fmap_cons. simpl sumZ. simpl length.
  pose proof (Z.div_mod (s * 1000) T ltac:(lia)) as Hdm.
  pose proof (Z.mod_pos_bound (s * 1000) T HT) as Hmb.
  change (foldr Z.add 0 ((fun s => s * 1000 / T) <$> l))
    with (sumZ ((fun s => s * 1000 / T) <$> l)).
  change (foldr Z.add 0 l) with (sumZ l).
  nia.
Qed.

(** X16. With every validator stored under its ID, every stake a
    [uint64], and the total active stake positive and small enough for
    [total * 1000] not to wrap around, the rewards [CalculateRewards]
    gives the active validators add up to at most the block reward 1000,
    and to more than 1000 less the number of active validators. *)
Theorem active_rewards_within_block_reward vm ctx :
  keyed vm -> wf_registry vm ->
  0 < totalActiveStake vm -> totalActiveStake vm * 1000 < 2 ^ 64 ->
  1000 - GetValidatorCount vm ctx < totalActiveRewards vm ctx <= 1000.
Proof.
  intros Hk Hwf Hpos Hfit.
  set (T := totalActiveStake vm) in *.
  assert (Hact : forall w, w ∈ GetActiveValidators vm ctx ->
            validators vm !! ID w = Some w /\ 0 <= StakeAmount w <= T).
  { intros w Hw. apply elem_of_GetActiveValidators in Hw as [Hs [k Hkw]].
    rewrite (Hk k w Hkw). split; [done|].
    pose proof (activeStake_le_total vm k w Hwf Hkw) as Hle.
    unfold activeStake in Hle. by rewrite decide_True in Hle. }
  unfold totalActiveRewards, GetValidatorCount.
  rewrite (sumZ_fmap_ext _ (fun w => StakeAmount w * 1000 / T)).
  2:{ intros w Hw. destruct (Hact w Hw) as [Hl Hb].
      apply CalculateRewards_exact; [done | done | nia | fold T; lia]. }
  assert (Hnn : Forall (fun s => 0 <= s)
                  (StakeAmount <$> GetActiveValidators vm ctx)).
  { apply Forall_fmap, Forall_forall. intros w Hw. simpl.
    by destruct (Hact w Hw) as [_ [? _]]. }
  destruct (sumZ_quotients T _ Hpos Hnn) as [Hup Hlow].
  rewrite <- list_fmap_compose in Hup, Hlow. rewrite length_fmap in Hlow.
  change (sumZ (StakeAmount <$> GetActiveValidators vm ctx)) with T in *.
  unfold compose in *.
  set (R := sumZ _) in *. set (n := Z.of_nat _) in *.
  assert (0 < n).
  { subst n. destruct (GetActiveValidators vm ctx) eqn:E; [|simpl; lia].
    exfalso. unfold T, totalActiveStake in Hpos.
    unfold GetActiveValidators in E. rewrite E in Hpos. simpl in Hpos. lia. }
  split; nia.
Qed.

(** In [vm_ab] the stakes 30000 and 60000 are paid 333 and 666. *)
Lemma active_rewards_within_block_reward_witness :
  998 < totalActiveRewards examples.vm_ab examples.ctx0 <= 1000.
Proof.
  assert (Hwf : wf_registry examples.vm_ab)
    by (apply wf_registry_decide; vm_compute; reflexivity).
  assert (Hk : keyed examples.vm_ab).
  { change examples.vm_ab
      with (apply_ops
              [OpRegisterNode examples.clk0 examples.ctx0 (examples.node "a" 30000);
               OpRegisterNode examples.clk0 examples.ctx0 (examples.node "b" 60000)]
              NewValidatorManager).
    apply apply_ops_keyed, NewValidatorManager_keyed. }
  apply (active_rewards_within_block_reward examples.vm_ab examples.ctx0 Hk Hwf).
  - vm_compute. reflexivity.
  - vm_compute. reflexivity.
Defined.

End registry_facts.

(** ** The round engine across calls *)

Module engine_facts.

Import mach types validator consensus spec mach_facts consensus_facts.

(** *** Proposals *)

(** X17. On an engine reached from construction by any calls,
    [ProposeBlock] never panics.  With an empty snapshot it returns the
    no-validators error and allocates nothing.  Otherwise it returns a
    pointer that is new to the heap, so that no block held before is
    touched, to a block of the current height, proposed by the validator
    at the proposer index, not finalized, whose single transaction
    [Validate] rejects for its zero sender. *)
Theorem ProposeBlock_reachable clk vals h0 cs :
  is_slice vals ->
  let h := (run cs h0 (NewInMemoryConsensusEngine vals)).1 in
  let st := (run cs h0 (NewInMemoryConsensusEngine vals)).2 in
  (vals = [] ->
   ProposeBlock clk h st = (None, Returned (Some ErrNoValidators), h))
  /\ (vals <> [] ->
      exists v l b tx,
        vals !! Z.to_nat (ProposerIndex st) = Some v
        /\ ProposeBlock clk h st = (Some l, Returned None, <[l := b]> h)
        /\ h !! l = None
        /\ BlockData.Height b = CurrentHeight st
        /\ BlockData.Proposer b = ID v
        /\ ConsensusData.Finalized (BlockData.Consensus b) = false
        /\ BlockData.Transactions b = [tx]
        /\ Transaction_Validate tx = Some ErrFromZero).
Proof.
  intros Hvals h st.
  assert (Hinv : engine_inv vals st)
    by (apply run_inv; [done | apply engine_inv_init]).
  destruct Hinv as (Hv & _ & Hp0 & Hp1).
  unfold ProposeBlock. rewrite Hv. split.
  - by intros ->.
  - intros Hne. rewrite bool_decide_eq_false_2 by (by destruct vals).
    assert (0 < Z.of_nat (length vals)) by (destruct vals; [done|simpl; lia]).
    destruct (lookup_lt_is_Some_2 vals (Z.to_nat (ProposerIndex st))
                ltac:(lia)) as [v Hlv].
    unfold index. rewrite bool_decide_eq_true_2 by done. rewrite Hlv.
    exists v. do 3 eexists. split_and!; try reflexivity; try done.
    apply not_elem_of_dom, is_fresh.
Qed.

(** The new engine over the three validators of the demo proposes a block
    by "val1". *)
Lemma ProposeBlock_reachable_witness :
  exists l b,
    ProposeBlock examples.clk0 ∅ examples.engine3
    = (Some l, Returned None, <[l := b]> ∅)
    /\ BlockData.Proposer b = "val1".
Proof.
  assert (Hv : is_slice examples.vals3)
    by (unfold is_slice, max_int; simpl; lia).
  destruct (ProposeBlock_reachable examples.clk0 examples.vals3 ∅ [] Hv)
    as [_ H].
  destruct (H ltac:(discriminate)) as (v & l & b & tx & Hl & Hp & _ & _ & Hb & _).
  exists l, b. split; [exact Hp|].
  injection Hl as <-. exact Hb.
Defined.

(** *** Votes and the tally *)

Lemma matchingPreCommits_app hash votes votes' :
  matchingPreCommits hash (votes ++ votes')
  = (matchingPreCommits hash votes + matchingPreCommits hash votes')%nat.
Proof. unfold matchingPreCommits. by rewrite filter_app, length_app. Qed.

Lemma matchingPreCommits_imap hash' type hash vs :
  forall f : nat -> ValidatorNode -> Vote.t,
  (forall i v, Vote.BlockHash (f i v) = hash /\ Vote.Type_ (f i v) = type) ->
  matchingPreCommits hash' (imap f vs)
  = if bool_decide (hash = hash') && bool_decide (type = VoteTypePreCommit)
    then length vs else 0%nat.
Proof.
  induction vs as [|v vs IH]; intros f Hf.
  - simpl. by destruct (_ && _).
  - rewrite imap_cons, matchingPreCommits_cons.
    destruct (Hf 0%nat v) as [-> ->].
    rewrite (IH (f ∘ S)) by (intros i w; apply Hf).
    simpl. by destruct (_ && _).
Qed.

Lemma matchingPreCommits_votesFor hash' type hash vs clk :
  matchingPreCommits hash' (votesFor type clk hash vs)
  = if bool_decide (hash = hash') && bool_decide (type = VoteTypePreCommit)
    then length vs else 0%nat.
Proof. unfold votesFor. by apply matchingPreCommits_imap. Qed.

(** X18. [PreCommit] followed by [FinalizeBlock] of the same block
    succeeds on every engine with a validator, whatever the height of the
    block, whether it is finalized already, and whatever votes were
    outstanding (the tally staying within [int]): every validator of the
    snapshot pre-commits.  The height advances, the block is appended to
    the history and the votes are cleared. *)
Theorem PreCommit_then_FinalizeBlock clk clk' h st block b :
  h !! block = Some b ->
  Validators st <> [] ->
  (Z.of_nat (length (Votes st)) + Z.of_nat (length (Validators st))) * 100
  <= max_int ->
  let st1 := (PreCommit clk h st block).2 in
  let r := FinalizeBlock clk' h st1 block in
  r.1.1 = Returned None
  /\ CurrentHeight r.2 = wrap_u64 (CurrentHeight st + 1)
  /\ FinalizedBlocks r.2 = FinalizedBlocks st ++ [block]
  /\ Votes r.2 = []
  /\ r.1.2 = <[block := finalize (clk' 0%nat) b]> h.
Proof.
  intros Hb Hne Hfit st1 r. subst r st1.
  unfold PreCommit. rewrite Hb, castVotes_spec. simpl.
  assert (Hfit1 : tally_fits
            (set_Votes (Votes st ++ votesFor VoteTypePreCommit
                          (fun i => clk (0 + i)%nat) (BlockData.Hash b)
                          (Validators st)) st)).
  { unfold tally_fits. simpl. rewrite length_app, votesFor_length. lia. }
  rewrite (FinalizeBlock_unfold _ _ _ _ _ Hb Hfit1). simpl.
  rewrite matchingPreCommits_app, matchingPreCommits_votesFor.
  rewrite (bool_decide_eq_true_2 (BlockData.Hash b = BlockData.Hash b)) by done.
  rewrite (bool_decide_eq_true_2 (VoteTypePreCommit = VoteTypePreCommit))
    by done.
  simpl.
  set (m := matchingPreCommits _ _). set (n := length (Validators st)).
  assert (0 < Z.of_nat n) by (subst n; destruct (Validators st); [done|simpl; lia]).
  rewrite bool_decide_eq_false_2 by lia.
  rewrite bool_decide_eq_true_2; [done|].
  unfold ConsensusThreshold. rewrite Z.quot_div_nonneg by lia.
  apply Z.div_le_lower_bound; lia.
Qed.

(** A block finalized once by [engine3] is finalized a second time. *)
Lemma PreCommit_then_FinalizeBlock_witness :
  (FinalizeBlock examples.clk1 examples.heap1
     (PreCommit examples.clk0 examples.heap1 examples.engine3 1%positive).2
     1%positive).1.1
  = Returned None.
Proof.
  assert (Hb : examples.heap1 !! 1%positive
               = Some {| BlockData.Height := 1;
                         BlockData.Hash := "block_1";
                         BlockData.Timestamp := examples.clk0 1%nat;
                         BlockData.Proposer := "val1";
                         BlockData.Transactions :=
                           [defaultBlockTx (examples.clk0 0%nat)];
                         BlockData.Consensus := ConsensusData.zero |})
    by (vm_compute; reflexivity).
  destruct (PreCommit_then_FinalizeBlock examples.clk0 examples.clk1
              examples.heap1 examples.engine3 1%positive _ Hb) as [H _].
  - discriminate.
  - unfold max_int. simpl. lia.
  - exact H.
Defined.

(** X19. Pre-votes are not counted: after [PreVote] of any block,
    [FinalizeBlock] of any block ends as it would have ended before, and
    leaves the same heap (the tally staying within [int]). *)
Theorem PreVote_leaves_tally clk clk' h st block b block' b' :
  h !! block = Some b ->
  h !! block' = Some b' ->
  (Z.of_nat (length (Votes st)) + Z.of_nat (length (Validators st))) * 100
  <= max_int ->
  let st1 := (PreVote clk h st block).2 in
  (FinalizeBlock clk' h st1 block').1.1 = (FinalizeBlock clk' h st block').1.1
  /\ (FinalizeBlock clk' h st1 block').1.2 = (FinalizeBlock clk' h st block').1.2.
Proof.
  intros Hb Hb' Hfit st1. subst st1.
  unfold PreVote. rewrite Hb, castVotes_spec. simpl.
  assert (Hfit0 : tally_fits st) by (unfold tally_fits; lia).
  assert (Hfit1 : tally_fits
            (set_Votes (Votes st ++ votesFor VoteTypePreVote
                          (fun i => clk (0 + i)%nat) (BlockData.Hash b)
                          (Validators st)) st)).
  { unfold tally_fits. simpl. rewrite length_app, votesFor_length. lia. }
  rewrite (FinalizeBlock_unfold _ _ _ _ _ Hb' Hfit1).
  rewrite (FinalizeBlock_unfold _ _ _ _ _ Hb' Hfit0). simpl.
  rewrite matchingPreCommits_app, matchingPreCommits_votesFor.
  rewrite (bool_decide_eq_false_2 (VoteTypePreVote = VoteTypePreCommit))
    by discriminate.
  rewrite andb_false_r, Nat.add_0_r.
  repeat case_bool_decide; done.
Qed.

(** With pre-votes only, [engine3] cannot finalize its proposal. *)
Lemma PreVote_leaves_tally_witness :
  (FinalizeBlock examples.clk1 examples.heap1
     (PreVote examples.clk0 examples.heap1 examples.engine3 1%positive).2
     1%positive).1.1
  = Returned (Some (ErrNotEnoughPreCommits 0 3)).
Proof.
  assert (Hb : examples.heap1 !! 1%positive
               = Some {| BlockData.Height := 1;
                         BlockData.Hash := "block_1";
                         BlockData.Timestamp := examples.clk0 1%nat;
                         BlockData.Proposer := "val1";
                         BlockData.Transactions :=
                           [defaultBlockTx (examples.clk0 0%nat)];
                         BlockData.Consensus := ConsensusData.zero |})
    by (vm_compute; reflexivity).
  destruct (PreVote_leaves_tally examples.clk0 examples.clk1 examples.heap1
              examples.engine3 1%positive _ 1%positive _ Hb Hb) as [H _].
  - unfold max_int. simpl. lia.
  - rewrite H. reflexivity.
Defined.

(** *** The loop of the demo command *)

Import demo.

Lemma rounds_done_init vals :
  rounds_done vals 0 ∅ (NewInMemoryConsensusEngine vals).
Proof.
  unfold rounds_done. split_and!; try done.
  - apply engine_inv_init.
  - intros j Hj. lia.
Qed.

(** One iteration after [k] iterations: the block proposed is finalized. *)
Lemma iteration_round vals clk k h st :
  vals <> [] ->
  Z.of_nat (length vals) * 200 <= max_int ->
  Z.of_nat k < max_int ->
  rounds_done vals k h st ->
  exists h' st',
    iteration clk h st = Some (None, h', st')
    /\ rounds_done vals (S k) h' st'.
Proof.
  intros Hne Hsmall Hk (Hinv & Hvotes & Hlen & Hpi & Hhist).
  pose proof Hinv as (Hv & Hh & Hp).
  set (n := Z.of_nat (length vals)) in *.
  assert (Hn : 0 < n) by (subst n; destruct vals; [done|simpl; lia]).
  assert (Hslice : is_slice (FinalizedBlocks st))
    by (unfold is_slice; lia).
  pose proof (CurrentHeight_exact _ _ Hinv Hslice) as Hheight.
  assert (Hpn : 0 <= ProposerIndex st < n) by lia.
  destruct (lookup_lt_is_Some_2 vals (Z.to_nat (ProposerIndex st))
              ltac:(lia)) as [v Hlv].
  set (l := fresh (dom h)).
  assert (Hfresh : h !! l = None) by apply not_elem_of_dom, is_fresh.
  set (b := {| BlockData.Height := CurrentHeight st;
               BlockData.Hash := blockHash (CurrentHeight st);
               BlockData.Timestamp := clk 0%nat 1%nat;
               BlockData.Proposer := ID v;
               BlockData.Transactions := [defaultBlockTx (clk 0%nat 0%nat)];
               BlockData.Consensus := ConsensusData.zero |}).
  assert (Hprop : ProposeBlock (clk 0%nat) h st
                  = (Some l, Returned None, <[l := b]> h)).
  { unfold ProposeBlock. rewrite Hv.
    rewrite bool_decide_eq_false_2 by (by destruct vals).
    unfold index. rewrite bool_decide_eq_true_2 by lia. by rewrite Hlv. }
  assert (Hb : <[l := b]> h !! l = Some b) by apply lookup_insert_eq.
  set (votes := votesFor VoteTypePreVote (fun i => clk 1%nat (0 + i)%nat)
                         (BlockData.Hash b) (Validators st)
                ++ votesFor VoteTypePreCommit (fun i => clk 2%nat (0 + i)%nat)
                            (BlockData.Hash b) (Validators st)).
  assert (Hfit : tally_fits (set_Votes votes st)).
  { unfold tally_fits, votes. simpl.
    rewrite length_app, !votesFor_length, Hv. fold n. lia. }
  assert (Hcount : matchingPreCommits (BlockData.Hash b) votes = length vals).
  { unfold votes.
    rewrite matchingPreCommits_app, !matchingPreCommits_votesFor.
    rewrite (bool_decide_eq_true_2 (BlockData.Hash b = BlockData.Hash b))
      by done.
    rewrite (bool_decide_eq_false_2 (VoteTypePreVote = VoteTypePreCommit))
      by discriminate.
    rewrite (bool_decide_eq_true_2 (VoteTypePreCommit = VoteTypePreCommit))
      by done.
    simpl. by rewrite Hv. }
  do 2 eexists. split.
  - unfold iteration. rewrite Hprop.
    unfold PreVote. rewrite Hb, castVotes_spec. simpl.
    unfold PreCommit. simpl. rewrite Hb, castVotes_spec. simpl.
    rewrite Hvotes. simpl. fold votes.
    change (set_Votes votes (set_Votes _ st)) with (set_Votes votes st).
    rewrite (FinalizeBlock_unfold _ _ _ _ _ Hb Hfit). simpl.
    change (BlockData.Hash b) with (blockHash (CurrentHeight st)) in Hcount.
    rewrite Hcount, Hv. fold n.
    rewrite bool_decide_eq_false_2 by lia.
    rewrite bool_decide_eq_true_2.
    2:{ unfold ConsensusThreshold. rewrite Z.quot_div_nonneg by lia.
        apply Z.div_le_lower_bound; lia. }
    rewrite insert_insert_eq. reflexivity.
  - unfold rounds_done. simpl. split_and!.
    + unfold engine_inv. simpl. split; [done | split].
      * rewrite Hh, wrap_u64_add_l, length_app. simpl. f_equal. lia.
      * fold n. rewrite next_proposer by (unfold max_int in *; lia).
        pose proof (Z.mod_pos_bound (ProposerIndex st + 1) n Hn). lia.
    + done.
    + rewrite length_app. simpl. lia.
    + fold n. rewrite next_proposer by (unfold max_int in *; lia).
      rewrite Hpi, Zplus_mod_idemp_l. f_equal. lia.
    + intros j Hj. destruct (decide (j = k)) as [->|Hjk].
      * exists l, (finalize (clk 3%nat 0%nat) b), v. split_and!.
        -- rewrite lookup_app_r by lia. by rewrite Hlen, Nat.sub_diag.
        -- apply lookup_insert_eq.
        -- rewrite <- Hlv, Hpi. f_equal. unfold n.
           rewrite <- Nat2Z.inj_mod. by rewrite Nat2Z.id.
        -- done.
        -- simpl. rewrite Hheight, Hlen. done.
        -- done.
      * destruct (Hhist j ltac:(lia)) as (lj & bj & vj & H1 & H2 & H3 & H4).
        exists lj, bj, vj. split_and!; try done.
        -- by rewrite lookup_app_l by lia.
        -- rewrite lookup_insert_ne; [done|]. intros <-. congruence.
        -- tauto.
        -- tauto.
        -- tauto.
Qed.

Lemma loop_rounds vals clks n : forall i k h st,
  vals <> [] ->
  Z.of_nat (length vals) * 200 <= max_int ->
  Z.of_nat (k + n) <= max_int ->
  rounds_done vals k h st ->
  exists h' st',
    loop clks i n h st = Some (h', st')
    /\ rounds_done vals (k + n) h' st'.
Proof.
  induction n as [|n IH]; intros i k h st Hne Hsmall Hkn Hdone.
  - exists h, st. rewrite Nat.add_0_r. by split.
  - destruct (iteration_round vals (clks i) k h st Hne Hsmall ltac:(lia) Hdone)
      as (h1 & st1 & Hit & Hdone1).
    destruct (IH (S i) (S k) h1 st1 Hne Hsmall ltac:(lia) Hdone1)
      as (h' & st' & Hloop & Hdone').
    exists h', st'. simpl. rewrite Hit. split; [done|].
    by rewrite Nat.add_succ_r.
Qed.

(** X20. The loop of the demo command, run [n] times on a new engine over
    any non-empty snapshot (sizes within [int]), never panics and never
    fails to finalize.  It ends at height [1 + n] with proposer index
    [n mod] the number of validators, no outstanding vote and [n]
    finalized blocks, the [j]-th of which has height [1 + j], is marked
    finalized and was proposed by the validator of index [j mod] that
    number: the proposers take turns in the order of the snapshot. *)
Theorem loop_round_robin vals clks n :
  vals <> [] ->
  Z.of_nat (length vals) * 200 <= max_int ->
  Z.of_nat n <= max_int ->
  exists h st,
    loop clks 0 n ∅ (NewInMemoryConsensusEngine vals) = Some (h, st)
    /\ CurrentHeight st = 1 + Z.of_nat n
    /\ ProposerIndex st = Z.of_nat n mod Z.of_nat (length vals)
    /\ Votes st = []
    /\ length (FinalizedBlocks st) = n
    /\ forall j, (j < n)%nat ->
         exists l b v,
           FinalizedBlocks st !! j = Some l
           /\ h !! l = Some b
           /\ vals !! (j mod length vals)%nat = Some v
           /\ BlockData.Proposer b = ID v
           /\ BlockData.Height b = 1 + Z.of_nat j
           /\ ConsensusData.Finalized (BlockData.Consensus b) = true.
Proof.
  intros Hne Hsmall Hn.
  destruct (loop_rounds vals clks n 0 0 ∅ (NewInMemoryConsensusEngine vals)
              Hne Hsmall Hn (rounds_done_init vals))
    as (h & st & Hloop & Hinv & Hvotes & Hlen & Hpi & Hhist).
  exists h, st. simpl in *. split_and!; try done.
  rewrite (CurrentHeight_exact _ _ Hinv) by (unfold is_slice; lia).
  by rewrite Hlen.
Qed.

(** The command itself: 200 iterations over its three validators end at
    height 201, the next proposer being the third validator. *)
Lemma loop_round_robin_witness :
  exists h st,
    demoConsensus (fun _ _ => examples.clk0) = Some (h, st)
    /\ CurrentHeight st = 201
    /\ ProposerIndex st = 2
    /\ length (FinalizedBlocks st) = 200%nat.
Proof.
  destruct (loop_round_robin demo.vals (fun _ _ => examples.clk0) 200)
    as (h & st & H1 & H2 & H3 & _ & H4 & _).
  - discriminate.
  - unfold max_int. simpl. lia.
  - unfold max_int. lia.
  - exists h, st. split_and!; [exact H1 | exact H2 | exact H3 | exact H4].
Defined.

End engine_facts.
